(** * Development-application scraper of the City of Norwood, Payneham and
      St Peters: a shallow embedding of [scraper.ts] and its properties.

    The script fetches two pages in one session, walks the parsed search
    results and writes each application it finds to an sqlite table.  The
    development follows the script top-down: JavaScript strings and the
    two string operations applied to an address, the pieces of the
    [moment] date library that the script calls, the [cheerio] selections,
    and finally [main] as a state-passing computation over a world made of
    cookie jars, the council's web site, the clock and the database. *)

From Equations Require Import Equations.
From Stdlib Require Import String Ascii DecimalString DecimalNat.
From Stdlib Require Import List Arith NArith Lia Bool.
Import ListNotations.

Set Implicit Arguments.
Set Warnings "-register-all".

(* ===================================================================== *)
(** ** JavaScript strings *)
(* ===================================================================== *)

Module JsString.

(** A JavaScript string is a sequence of UTF-16 code units. *)
Definition char16 := N.
Definition jsstring := list char16.

(** String literals of the script are ASCII; [lit] gives their code units. *)
Definition lit (s : string) : jsstring :=
  map N_of_ascii (list_ascii_of_string s).

Definition eqb (s t : jsstring) : bool :=
  if list_eq_dec N.eq_dec s t then true else false.

(** ECMAScript WhiteSpace and LineTerminator code points: the characters
    removed by [String.prototype.trim] and matched by the regular
    expression class [\s]. *)
Definition is_space (c : char16) : bool :=
  ((9 <=? c) && (c <=? 13)          (* TAB, LF, VT, FF, CR *)
   || (c =? 32)                      (* SPACE *)
   || (c =? 160)                     (* NO-BREAK SPACE *)
   || (c =? 5760)                    (* U+1680 *)
   || (8192 <=? c) && (c <=? 8202)   (* U+2000 .. U+200A *)
   || (c =? 8232) || (c =? 8233)     (* LINE / PARAGRAPH SEPARATOR *)
   || (c =? 8239)                    (* U+202F *)
   || (c =? 8287)                    (* U+205F *)
   || (c =? 12288)                   (* U+3000 *)
   || (c =? 65279))%N.               (* U+FEFF *)

Definition SPACE : char16 := 32%N.
Definition TAB : char16 := 9%N.
Definition LF : char16 := 10%N.

Fixpoint drop_while (p : char16 -> bool) (s : jsstring) : jsstring :=
  match s with
  | [] => []
  | c :: rest => if p c then drop_while p rest else s
  end.

Fixpoint take_while (p : char16 -> bool) (s : jsstring) : jsstring :=
  match s with
  | [] => []
  | c :: rest => if p c then c :: take_while p rest else []
  end.

(** [s.trim()]: white space is removed from both ends. *)
Definition trim_start (s : jsstring) : jsstring := drop_while is_space s.
Definition trim_end (s : jsstring) : jsstring := rev (drop_while is_space (rev s)).
Definition trim (s : jsstring) : jsstring := trim_end (trim_start s).

(** [s.replace(re, replacement)] for a regular expression [re] with the
    [g] flag whose matches are never empty, and a replacement text without
    a dollar sign, as the " " of line 85 ([replace_patterns] below reads
    the dollar patterns).  [matcher s] is the length of
    the match of [re] that starts at the first character of [s], and [0]
    when [re] does not match there.  The scan goes from left to right:
    where the expression matches, the match is replaced and the scan
    resumes behind it; elsewhere the character is copied. *)
Section Replace.

Variable matcher : jsstring -> nat.
Variable replacement : jsstring.

Equations? replace (s : jsstring) : jsstring by wf (length s) lt :=
  replace [] := [];
  replace (c :: rest) with matcher (c :: rest) => {
    | 0 := c :: replace rest;
    | S n := replacement ++ replace (skipn n rest) }.
Proof.
  all: simpl; try lia.
  pose proof (length_skipn n rest). lia.
Qed.

End Replace.

(** The expression [/\s\s+/]: two or more white-space characters, as many
    as there are (the quantifier is greedy). *)
Definition re_ws_ws_plus (s : jsstring) : nat :=
  let n := length (take_while is_space s) in
  if 2 <=? n then n else 0.

(** A literal pattern such as [/\{0\}/]. *)
Fixpoint starts_with (pat s : jsstring) : bool :=
  match pat, s with
  | [], _ => true
  | p :: pat', c :: s' => (p =? c)%N && starts_with pat' s'
  | _ :: _, [] => false
  end.

Definition re_literal (pat : jsstring) (s : jsstring) : nat :=
  if starts_with pat s then length pat else 0.

(** [s.trim().replace(/\s\s+/g, " ")], the expression of line 85. *)
Definition normalizeWhitespace (s : jsstring) : jsstring :=
  replace re_ws_ws_plus [SPACE] (trim s).

(** Decidable shapes of a string, used to state what the expression
    achieves. *)
Definition starts_with_space (s : jsstring) : bool :=
  match s with
  | c :: _ => is_space c
  | [] => false
  end.

Fixpoint ends_with_space (s : jsstring) : bool :=
  match s with
  | [] => false
  | [c] => is_space c
  | _ :: rest => ends_with_space rest
  end.

Fixpoint adjacent_spaces (s : jsstring) : bool :=
  match s with
  | c :: rest => (is_space c && starts_with_space rest) || adjacent_spaces rest
  | [] => false
  end.

End JsString.

Import JsString.

(* ===================================================================== *)
(** ** The [moment] date library *)
(* ===================================================================== *)

(** [moment] is a dependency of the script and its source is not part of
    the repository.  The module gives the calls the script makes:
    [moment()], [moment.invalid()], [moment(value, "D/MM/YYYY", true)],
    [subtract(1, "months")], [format] and the [isValid] member. *)
Module Moment.

(** A calendar day; [month] counts from 1. *)
Record calendar := { year : nat; month : nat; date : nat }.

(** A moment object is either invalid or holds a day (the time of day
    plays no part in the script). *)
Inductive Moment :=
| invalid
| valid (c : calendar).

Definition isLeapYear (y : nat) : bool :=
  ((y mod 4 =? 0) && negb (y mod 100 =? 0)) || (y mod 400 =? 0).

Definition daysInMonth (y m : nat) : nat :=
  if m =? 2 then (if isLeapYear y then 29 else 28)
  else if (m =? 4) || (m =? 6) || (m =? 9) || (m =? 11) then 30
  else 31.

Definition is_digit (c : char16) : bool := ((48 <=? c) && (c <=? 57))%N.

(** Value of a run of decimal digits ([toInt]). *)
Definition toInt (ds : jsstring) : nat :=
  fold_left (fun acc c => 10 * acc + (N.to_nat c - 48)) ds 0.

(** At most [max] leading digits, as many as there are. *)
Fixpoint leading_digits (max : nat) (s : jsstring) : jsstring :=
  match max, s with
  | S max', c :: rest => if is_digit c then c :: leading_digits max' rest else []
  | _, _ => []
  end.

(** A numeric token whose strict-mode expression asks for [lo] to [hi]
    digits: the digits read and the input behind them. *)
Definition number_token (lo hi : nat) (s : jsstring) : option (nat * jsstring) :=
  let ds := leading_digits hi s in
  if lo <=? length ds then Some (toInt ds, skipn (length ds) s) else None.

(** A character of the format that is not a token has to be there. *)
Definition literal_token (c : char16) (s : jsstring) : option jsstring :=
  match s with
  | c' :: rest => if (c =? c')%N then Some rest else None
  | [] => None
  end.

(** [checkOverflow]: the month and the day of the month have to exist. *)
Definition checkOverflow (c : calendar) : bool :=
  (1 <=? month c) && (month c <=? 12) &&
  (1 <=? date c) && (date c <=? daysInMonth (year c) (month c)).

(** Modelled from the spec: the parser [moment(value, "D/MM/YYYY", true)]
    of the moment library, which the repository does not contain.  In
    strict mode the whole input has to be consumed by the tokens of the
    format: [D] reads one or two digits, [MM] exactly two, [YYYY] exactly
    four, and each [/] stands for itself.  A day or month that does not
    exist, or any other input, gives the invalid moment; no input makes the
    parser throw. *)
Definition parse_D_MM_YYYY_strict (value : jsstring) : Moment :=
  match number_token 1 2 value with
  | None => invalid
  | Some (d, s1) =>
    match literal_token 47%N s1 with
    | None => invalid
    | Some s2 =>
      match number_token 2 2 s2 with
      | None => invalid
      | Some (m, s3) =>
        match literal_token 47%N s3 with
        | None => invalid
        | Some s4 =>
          match number_token 4 4 s4 with
          | Some (y, []) =>
            let c := {| year := y; month := m; date := d |} in
            if checkOverflow c then valid c else invalid
          | _ => invalid
          end
        end
      end
    end
  end.

(** The method [isValid()]. *)
Definition isValid (m : Moment) : bool :=
  match m with
  | invalid => false
  | valid _ => true
  end.

(** What an expression of the script evaluates to where it is used as a
    condition: a boolean, or a function object. *)
Inductive jsvalue :=
| Boolean (b : bool)
| Function_ (f : Moment -> bool).

(** [ToBoolean]: every object, a function included, counts as true. *)
Definition ToBoolean (v : jsvalue) : bool :=
  match v with
  | Boolean b => b
  | Function_ _ => true
  end.

(** The member expression [m.isValid], without a call: the method itself. *)
Definition get_isValid (m : Moment) : jsvalue := Function_ isValid.

(** Decimal digits of a number, padded with zeros to [width]
    ([zeroFill]). *)
Definition zeroFill (n width : nat) : jsstring :=
  let ds := lit (NilEmpty.string_of_uint (Nat.to_uint n)) in
  repeat 48%N (width - length ds) ++ ds.

(** The pieces of the two format strings of the script. *)
Inductive token :=
| DD
| MM
| YYYY
| Lit (c : char16).

Definition format_token (c : calendar) (t : token) : jsstring :=
  match t with
  | DD => zeroFill (date c) 2
  | MM => zeroFill (month c) 2
  | YYYY => zeroFill (year c) 4
  | Lit ch => [ch]
  end.

(** [m.format(f)]; an invalid moment is rendered as the text of the
    locale, "Invalid date". *)
Definition format (m : Moment) (f : list token) : jsstring :=
  match m with
  | invalid => lit "Invalid date"
  | valid c => concat (map (format_token c) f)
  end.

(** "YYYY-MM-DD" and "DD/MM/YYYY". *)
Definition YYYY_MM_DD : list token := [YYYY; Lit 45%N; MM; Lit 45%N; DD].
Definition DD_MM_YYYY : list token := [DD; Lit 47%N; MM; Lit 47%N; YYYY].

(** [m.subtract(1, "months")]: the month before, and the day of the month
    no later than that month's last day. *)
Definition subtract_1_months (m : Moment) : Moment :=
  match m with
  | invalid => invalid
  | valid c =>
    let y := if month c =? 1 then year c - 1 else year c in
    let mo := if month c =? 1 then 12 else month c - 1 in
    valid {| year := y; month := mo; date := Nat.min (date c) (daysInMonth y mo) |}
  end.

End Moment.

(* ===================================================================== *)
(** ** The [cheerio] selections *)
(* ===================================================================== *)

Module Cheerio.

(** The parsed page: text and elements.  An element has a tag name, the
    names of its [class] attribute and its child nodes. *)
Inductive node :=
| Text (data : jsstring)
| Element (name : string) (classes : list string) (children : list node).

(** An element as a selection holds it: the node together with the
    siblings that follow it under its parent (what [elem.next] reaches). *)
Record element := { self : node; siblings_after : list node }.

(** A selector [tag] or [tag.class]. *)
Record selector := { tag : string; class : option string }.

Definition matches (sel : selector) (n : node) : bool :=
  match n with
  | Text _ => false
  | Element name classes _ =>
    String.eqb name (tag sel) &&
    match class sel with
    | None => true
    | Some c => existsb (String.eqb c) classes
    end
  end.

(** The elements below and including [n] that match, in document order. *)
Fixpoint descend (sel : selector) (n : node) (after : list node) : list element :=
  (if matches sel n then [{| self := n; siblings_after := after |}] else []) ++
  match n with
  | Text _ => []
  | Element _ _ kids =>
    (fix each (l : list node) : list element :=
       match l with
       | [] => []
       | k :: r => descend sel k r ++ each r
       end) kids
  end.

Fixpoint descend_all (sel : selector) (l : list node) : list element :=
  match l with
  | [] => []
  | k :: r => descend sel k r ++ descend_all sel r
  end.

(** [$(selector).get()] on a loaded document. *)
Definition select (document : list node) (sel : selector) : list element :=
  descend_all sel document.

(** [$(e).find(selector).get()]: the matching descendants of [e]. *)
Definition find (e : element) (sel : selector) : list element :=
  match self e with
  | Text _ => []
  | Element _ _ kids => descend_all sel kids
  end.

Fixpoint matching_siblings (sel : selector) (l : list node) : list element :=
  match l with
  | [] => []
  | k :: r =>
    (if matches sel k then [{| self := k; siblings_after := r |}] else [])
    ++ matching_siblings sel r
  end.

(** [$(e).children(selector)]: the matching child elements of [e]. *)
Definition children (e : element) (sel : selector) : list element :=
  match self e with
  | Text _ => []
  | Element _ _ kids => matching_siblings sel kids
  end.

(** The first sibling behind an element that is itself an element. *)
Fixpoint next_element (l : list node) : option element :=
  match l with
  | [] => None
  | Text _ :: r => next_element r
  | (Element _ _ _ as k) :: r => Some {| self := k; siblings_after := r |}
  end.

(** [$(e).next(selector).get()]: the element immediately behind [e], kept
    when it matches the selector; so at most one element. *)
Definition next (e : element) (sel : selector) : list element :=
  match next_element (siblings_after e) with
  | Some e' => if matches sel (self e') then [e'] else []
  | None => []
  end.

Fixpoint textContent (n : node) : jsstring :=
  match n with
  | Text data => data
  | Element _ _ kids =>
    (fix each (l : list node) : jsstring :=
       match l with
       | [] => []
       | k :: r => textContent k ++ each r
       end) kids
  end.

(** [selection.text()]: the text of all the selected elements, joined. *)
Definition text (selection : list element) : jsstring :=
  concat (map (fun e => textContent (self e)) selection).

End Cheerio.

(* ===================================================================== *)
(** ** The world the script runs in *)
(* ===================================================================== *)

(** A cookie of the council's site: its name and its value. *)
Definition cookie : Type := jsstring * jsstring.

(** The object passed to [insertRow]. *)
Record DevelopmentApplication := {
  applicationNumber : jsstring;
  address : jsstring;
  reason : jsstring;
  informationUrl : jsstring;
  scrapeDate : jsstring;
  receivedDate : jsstring
}.

(** What lies outside the script: the council's web site behind the HTTP
    transport, the sqlite file, the HTML parser of [cheerio.load] and the
    clock read by [moment()]. *)
Class Platform := {
  Site : Type;
  http_get : Site -> jsstring -> list cookie ->
             Site * (jsstring + (jsstring * list cookie));
  Database : Type;
  create_table_if_not_exists : Database -> Database;
  insert_or_replace : Database -> DevelopmentApplication -> jsstring + Database;
  load : jsstring -> list Cheerio.node;
  clock : nat -> Moment.calendar
}.

Inductive error :=
| RequestError (reason : jsstring)
| SqliteError (reason : jsstring)
| URIError.

(** What the script does to the outside, in the order it does it (the
    lines written to the console are left out). *)
Inductive event :=
| RequestSent (url : jsstring) (jar : nat) (cookies : list cookie)
| ResponseReceived (url : jsstring) (jar : nat) (set_cookie : list cookie)
| RequestFailed (url : jsstring) (jar : nat)
| InsertRow (developmentApplication : DevelopmentApplication).

(** A promise that has settled. *)
Inductive outcome (A : Type) :=
| Resolved (a : A)
| Rejected (e : error).

Arguments Resolved {A} a.
Arguments Rejected {A} e.

(** [encodeURIComponent]: the characters left as they are. *)
Definition uri_unreserved (c : char16) : bool :=
  ((48 <=? c) && (c <=? 57) || (65 <=? c) && (c <=? 90) || (97 <=? c) && (c <=? 122)
   || (c =? 45) || (c =? 95) || (c =? 46) || (c =? 33) || (c =? 126)
   || (c =? 42) || (c =? 39) || (c =? 40) || (c =? 41))%N.

Definition hex_digit (n : N) : char16 :=
  (if n <? 10 then 48 + n else 55 + n)%N.

Definition percent (byte : N) : jsstring :=
  [37%N; hex_digit (byte / 16); hex_digit (byte mod 16)].

(** The UTF-8 bytes of a code point, each percent-encoded. *)
Definition percent_utf8 (cp : N) : jsstring :=
  (if cp <? 128 then percent cp
   else if cp <? 2048 then percent (192 + cp / 64) ++ percent (128 + cp mod 64)
   else if cp <? 65536 then
     percent (224 + cp / 4096) ++ percent (128 + (cp / 64) mod 64)
     ++ percent (128 + cp mod 64)
   else
     percent (240 + cp / 262144) ++ percent (128 + (cp / 4096) mod 64)
     ++ percent (128 + (cp / 64) mod 64) ++ percent (128 + cp mod 64))%N.

(** [encodeURIComponent(s)]; [None] stands for the URIError thrown at a
    surrogate code unit without its partner. *)
Fixpoint encodeURIComponent (s : jsstring) : option jsstring :=
  match s with
  | [] => Some []
  | c :: rest =>
    if uri_unreserved c then option_map (cons c) (encodeURIComponent rest)
    else if ((c <? 55296) || (57344 <=? c))%N then
      option_map (app (percent_utf8 c)) (encodeURIComponent rest)
    else if (c <? 56320)%N then
      match rest with
      | d :: rest' =>
        if ((56320 <=? d) && (d <? 57344))%N then
          option_map (app (percent_utf8 (65536 + (c - 55296) * 1024 + (d - 56320))%N))
                     (encodeURIComponent rest')
        else None
      | [] => None
      end
    else None
  end.

Definition DevelopmentApplicationMainUrl : jsstring :=
  lit "https://ecouncil.npsp.sa.gov.au/eservice/daEnquiryInit.do?doc_typ=155&nodeNum=10209".

Definition DevelopmentApplicationSearchUrl : jsstring :=
  lit "https://ecouncil.npsp.sa.gov.au/eservice/daEnquiry.do?number=&lodgeRangeType=on&dateFrom={0}&dateTo={1}&detDateFromString=&detDateToString=&streetName=&suburb=0&unitNum=&houseNum=0%0D%0A%09%09%09%09%09%09&planNumber=&strataPlan=&lotNumber=&propertyName=&searchMode=A&submitButton=Search".

(** The selectors of the script. *)
Definition h4_non_table_headers : Cheerio.selector :=
  {| Cheerio.tag := "h4"; Cheerio.class := Some "non_table_headers"%string |}.
Definition div : Cheerio.selector :=
  {| Cheerio.tag := "div"; Cheerio.class := None |}.
Definition p_rowDataOnly : Cheerio.selector :=
  {| Cheerio.tag := "p"; Cheerio.class := Some "rowDataOnly"%string |}.
Definition span_key : Cheerio.selector :=
  {| Cheerio.tag := "span"; Cheerio.class := Some "key"%string |}.
Definition span_inputField : Cheerio.selector :=
  {| Cheerio.tag := "span"; Cheerio.class := Some "inputField"%string |}.

(** The three variables declared for each header before its rows are read
    (lines 86 to 88). *)
Record variables := {
  var_applicationNumber : jsstring;
  var_reason : jsstring;
  var_receivedDate : Moment.Moment
}.

Definition initial_variables : variables :=
  {| var_applicationNumber := [];
     var_reason := [];
     var_receivedDate := Moment.invalid |}.

(** Line 85: the text of the header, trimmed, with [/\s\s+/g] replaced by
    one space. *)
Definition address_of (headerElement : Cheerio.element) : jsstring :=
  normalizeWhitespace (Cheerio.text [headerElement]).

(** Lines 94 to 99: what one key and value do to the variables. *)
Definition assign (vars : variables) (key value : jsstring) : variables :=
  if JsString.eqb key (lit "Type of Work") then
    {| var_applicationNumber := var_applicationNumber vars;
       var_reason := value;
       var_receivedDate := var_receivedDate vars |}
  else if JsString.eqb key (lit "Application No.") then
    {| var_applicationNumber := value;
       var_reason := var_reason vars;
       var_receivedDate := var_receivedDate vars |}
  else if JsString.eqb key (lit "Date Lodged") then
    {| var_applicationNumber := var_applicationNumber vars;
       var_reason := var_reason vars;
       var_receivedDate := Moment.parse_D_MM_YYYY_strict value |}
  else vars.

(** Lines 92 and 93. *)
Definition key_of (paragraphElement : Cheerio.element) : jsstring :=
  trim (Cheerio.text (Cheerio.children paragraphElement span_key)).
Definition value_of (paragraphElement : Cheerio.element) : jsstring :=
  trim (Cheerio.text (Cheerio.children paragraphElement span_inputField)).

(** Lines 91 to 100: the rows of one block. *)
Definition read_paragraphs (vars : variables) (divElement : Cheerio.element) : variables :=
  fold_left (fun vars paragraphElement =>
               assign vars (key_of paragraphElement) (value_of paragraphElement))
            (Cheerio.find divElement p_rowDataOnly) vars.

(** Lines 90 to 101: the blocks that [next("div")] gives for the header. *)
Definition read_header (headerElement : Cheerio.element) : variables :=
  fold_left read_paragraphs (Cheerio.next headerElement div) initial_variables.

(** Line 112. *)
Definition receivedDate_text (receivedDate : Moment.Moment) : jsstring :=
  if Moment.ToBoolean (Moment.get_isValid receivedDate)
  then Moment.format receivedDate Moment.YYYY_MM_DD
  else lit "".

(** Line 105. *)
Definition has_number_and_address (applicationNumber address : jsstring) : bool :=
  negb (JsString.eqb applicationNumber (lit "")) && negb (JsString.eqb address (lit "")).

(** Lines 106 to 113: the object built for a header. *)
Definition developmentApplication_of
  (address : jsstring) (vars : variables) (today : Moment.Moment) : DevelopmentApplication :=
  {| applicationNumber := var_applicationNumber vars;
     address := address;
     reason := var_reason vars;
     informationUrl := DevelopmentApplicationMainUrl;
     scrapeDate := Moment.format today Moment.YYYY_MM_DD;
     receivedDate := receivedDate_text (var_receivedDate vars) |}.

(** One cookie put into a jar takes the place of the cookie of that name. *)
Definition store_cookie (jar : list cookie) (c : cookie) : list cookie :=
  filter (fun c' => negb (JsString.eqb (fst c') (fst c))) jar ++ [c].

Definition store_cookies (jar : list cookie) (cs : list cookie) : list cookie :=
  fold_left store_cookie cs jar.

Fixpoint set_nth {A : Type} (n : nat) (x : A) (l : list A) : list A :=
  match n, l with
  | _, [] => []
  | 0, _ :: r => x :: r
  | S n', y :: r => y :: set_nth n' x r
  end.

(** [GetSubstitution] for an expression without capture groups: what a
    replacement text stands for at one match.  [$$] is a dollar sign, [$&]
    the matched text, [$`] the text before the match and [$'] the text
    behind it; a dollar sign before anything else stands for itself. *)
Fixpoint GetSubstitution (matched before after replacement : jsstring) : jsstring :=
  match replacement with
  | [] => []
  | c :: rest =>
    if (c =? 36)%N then
      match rest with
      | d :: rest' =>
        if (d =? 36)%N then 36%N :: GetSubstitution matched before after rest'
        else if (d =? 38)%N then matched ++ GetSubstitution matched before after rest'
        else if (d =? 96)%N then before ++ GetSubstitution matched before after rest'
        else if (d =? 39)%N then after ++ GetSubstitution matched before after rest'
        else 36%N :: GetSubstitution matched before after rest
      | [] => [36%N]
      end
    else c :: GetSubstitution matched before after rest
  end.

(** [s.replace(re, replacement)] with the replacement text read as
    JavaScript reads it, for an expression [re] with the [g] flag, without
    groups, whose matches are never empty.  [before] is the part of the
    string that the scan has behind it.  Where the replacement text holds
    no dollar sign this is [JsString.replace]. *)
Section ReplacePatterns.

Variable matcher : jsstring -> nat.
Variable replacement : jsstring.

Equations? replace_scan (before s : jsstring) : jsstring by wf (length s) lt :=
  replace_scan before [] := [];
  replace_scan before (c :: rest) with matcher (c :: rest) => {
    | 0 := c :: replace_scan (before ++ [c]) rest;
    | S n := GetSubstitution (c :: firstn n rest) before (skipn n rest) replacement
             ++ replace_scan (before ++ c :: firstn n rest) (skipn n rest) }.
Proof.
  all: simpl; try lia.
  pose proof (length_skipn n rest). lia.
Qed.

Definition replace_patterns (s : jsstring) : jsstring := replace_scan [] s.

End ReplacePatterns.

(** Line 77: the two dates put into the search address. *)
Definition developmentApplicationSearchUrl (dateFrom dateTo : jsstring) : jsstring :=
  replace_patterns (re_literal (lit "{1}")) dateTo
    (replace_patterns (re_literal (lit "{0}")) dateFrom DevelopmentApplicationSearchUrl).

Section Scraper.

Context {platform : Platform}.

(** The cookie jars that exist (a jar is known by its position), the site,
    the database, the number of times the clock was read and the events so
    far. *)
Record World := {
  jars : list (list cookie);
  site : Site;
  data : Database;
  ticks : nat;
  events : list event
}.

(** An asynchronous step of the script: it changes the world and either
    resolves to a value or rejects. *)
Definition Promise (A : Type) : Type := World -> outcome A * World.

Definition resolve {A : Type} (a : A) : Promise A := fun w => (Resolved a, w).

Definition throw {A : Type} (e : error) : Promise A := fun w => (Rejected e, w).

(** [await]: a rejection ends the function that awaits. *)
Definition await {A B : Type} (p : Promise A) (k : A -> Promise B) : Promise B :=
  fun w =>
    match p w with
    | (Resolved a, w') => k a w'
    | (Rejected e, w') => (Rejected e, w')
    end.

Notation "x <- p ;; k" := (await p (fun x => k))
  (at level 61, p at next level, right associativity).

Definition emit (e : event) (w : World) : World :=
  {| jars := jars w; site := site w; data := data w; ticks := ticks w;
     events := events w ++ [e] |}.

(** Lines 25 to 33; the promise always resolves. *)
Definition initializeDatabase : Promise unit :=
  fun w =>
    (Resolved tt,
     {| jars := jars w; site := site w;
        data := create_table_if_not_exists (data w);
        ticks := ticks w; events := events w |}).

(** Lines 37 to 58: the statement is run with the six values; an error
    rejects the promise. *)
Definition insertRow (developmentApplication : DevelopmentApplication) : Promise unit :=
  fun w =>
    let w1 := emit (InsertRow developmentApplication) w in
    match insert_or_replace (data w1) developmentApplication with
    | inl e => (Rejected (SqliteError e), w1)
    | inr data' =>
      (Resolved tt,
       {| jars := jars w1; site := site w1; data := data';
          ticks := ticks w1; events := events w1 |})
    end.

(** [request.jar()]: a new, empty jar. *)
Definition request_jar : Promise nat :=
  fun w =>
    (Resolved (length (jars w)),
     {| jars := jars w ++ [[]]; site := site w; data := data w;
        ticks := ticks w; events := events w |}).

(** [request({ url: url, jar: jar })]: the cookies of the jar go out with
    the request, the cookies of the response go into the jar.  (Both pages
    are on one host and path, so every cookie of the jar applies.) *)
Definition request (url : jsstring) (jar : nat) : Promise jsstring :=
  fun w =>
    let sent := nth jar (jars w) [] in
    let w1 := emit (RequestSent url jar sent) w in
    match http_get (site w1) url sent with
    | (site', inl e) =>
      (Rejected (RequestError e),
       emit (RequestFailed url jar)
            {| jars := jars w1; site := site'; data := data w1;
               ticks := ticks w1; events := events w1 |})
    | (site', inr (body, set_cookie)) =>
      (Resolved body,
       emit (ResponseReceived url jar set_cookie)
            {| jars := set_nth jar (store_cookies sent set_cookie) (jars w1);
               site := site'; data := data w1;
               ticks := ticks w1; events := events w1 |})
    end.

Definition tick (w : World) : World :=
  {| jars := jars w; site := site w; data := data w;
     ticks := S (ticks w); events := events w |}.

(** [moment()]: the clock is read. *)
Definition moment_now : Promise Moment.Moment :=
  fun w => (Resolved (Moment.valid (clock (ticks w))), tick w).

Definition encodeURIComponent_or_throw (s : jsstring) : Promise jsstring :=
  match encodeURIComponent s with
  | Some s' => resolve s'
  | None => throw URIError
  end.

Fixpoint for_each {A : Type} (l : list A) (body : A -> Promise unit) : Promise unit :=
  match l with
  | [] => resolve tt
  | x :: rest => _ <- body x ;; for_each rest body
  end.

(** Lines 84 to 115 for one header. *)
Definition parse_header (headerElement : Cheerio.element) : Promise unit :=
  let address := address_of headerElement in
  let vars := read_header headerElement in
  if has_number_and_address (var_applicationNumber vars) address then
    today <- moment_now ;;
    insertRow (developmentApplication_of address vars today)
  else resolve tt.

(** Lines 84 to 115: "Parse the search results." *)
Definition parse_search_results (document : list Cheerio.node) : Promise unit :=
  for_each (Cheerio.select document h4_non_table_headers) parse_header.

(** Lines 62 to 116. *)
Definition main : Promise unit :=
  _ <- initializeDatabase ;;
  jar <- request_jar ;;
  _ <- request DevelopmentApplicationMainUrl jar ;;
  aMonthAgo <- moment_now ;;
  dateFrom <- encodeURIComponent_or_throw
                (Moment.format (Moment.subtract_1_months aMonthAgo) Moment.DD_MM_YYYY) ;;
  today <- moment_now ;;
  dateTo <- encodeURIComponent_or_throw (Moment.format today Moment.DD_MM_YYYY) ;;
  body <- request (developmentApplicationSearchUrl dateFrom dateTo) jar ;;
  parse_search_results (load body).

End Scraper.

(* ===================================================================== *)
(** ** Reading a run *)
(* ===================================================================== *)

(** The objects handed to [insertRow], in order. *)
Fixpoint inserted (evs : list event) : list DevelopmentApplication :=
  match evs with
  | [] => []
  | InsertRow developmentApplication :: rest => developmentApplication :: inserted rest
  | _ :: rest => inserted rest
  end.

(** The traffic with the site, in order. *)
Fixpoint requests (evs : list event) : list event :=
  match evs with
  | [] => []
  | InsertRow _ :: rest => requests rest
  | e :: rest => e :: requests rest
  end.

(** The four values that come from the page: number, address, reason and
    date received. *)
Definition extracted : Type := jsstring * jsstring * jsstring * jsstring.

Definition fields_of (developmentApplication : DevelopmentApplication) : extracted :=
  (applicationNumber developmentApplication, address developmentApplication,
   reason developmentApplication, receivedDate developmentApplication).

(** What the loop has in hand for a header when it reaches line 105. *)
Definition candidate (headerElement : Cheerio.element) : extracted :=
  let vars := read_header headerElement in
  (var_applicationNumber vars, address_of headerElement, var_reason vars,
   receivedDate_text (var_receivedDate vars)).

Definition number_of (c : extracted) : jsstring := fst (fst (fst c)).
Definition address_in (c : extracted) : jsstring := snd (fst (fst c)).

(** Following the words of claim C3: the details blocks of a header taken
    as every [div] among the siblings behind it, up to the next header, all
    of them read in turn.  (The script reads [Cheerio.next] instead.) *)
Fixpoint following_blocks (l : list Cheerio.node) : list Cheerio.element :=
  match l with
  | [] => []
  | k :: r =>
    if Cheerio.matches h4_non_table_headers k then []
    else (if Cheerio.matches div k
          then [{| Cheerio.self := k; Cheerio.siblings_after := r |}] else [])
         ++ following_blocks r
  end.

Definition read_header_all_blocks (headerElement : Cheerio.element) : variables :=
  fold_left read_paragraphs
            (following_blocks (Cheerio.siblings_after headerElement))
            initial_variables.

(** ** Pages used as examples *)

Module Pages.

Import Cheerio.

Definition h4 (text : jsstring) : node :=
  Element "h4" ["non_table_headers"%string] [Text text].

(** [<p class="rowDataOnly"><span class="key">k</span><span class="inputField">v</span></p>] *)
Definition row (key value : string) : node :=
  Element "p" ["rowDataOnly"%string]
    [Element "span" ["key"%string] [Text (lit key)];
     Element "span" ["inputField"%string] [Text (lit value)]].

Definition block (rows : list node) : node := Element "div" [] rows.

(** One header with the three rows; the month of the date has one digit. *)
Definition smith_st_one_digit_month : list node :=
  [h4 (lit "12  Smith   St");
   block [row "Application No." "123/2023"; row "Type of Work" "Carport";
          row "Date Lodged" "3/1/2023"]].

(** The same with a month of two digits. *)
Definition smith_st : list node :=
  [h4 (lit "12  Smith   St");
   block [row "Application No." "123/2023"; row "Type of Work" "Carport";
          row "Date Lodged" "3/01/2023"]].

(** A header whose block has no "Date Lodged" row. *)
Definition no_date_lodged : list node :=
  [h4 (lit "1 Main St");
   block [row "Application No." "1/2023"; row "Type of Work" "Fence"]].

(** A header followed by two blocks; the number is in the second. *)
Definition two_blocks : list node :=
  [h4 (lit "7 High St");
   block [row "Type of Work" "Verandah"];
   block [row "Application No." "77/2023"]].

Definition header_of (page : list node) : element :=
  match page with
  | n :: rest => {| self := n; siblings_after := rest |}
  | [] => {| self := Text []; siblings_after := [] |}
  end.


End Pages.

(** ** A site, a database and a clock to run the script against *)

Module Demo.

Definition session : cookie := (lit "JSESSIONID_live", lit "0001").

(** The main page sets the session cookie; the search answers only when
    that cookie comes with the request.  The results page parses to
    [page].  Every insert succeeds and replaces the row of the same
    number.  The clock stands at 31 March 2023. *)
Definition platform (page : list Cheerio.node) : Platform :=
  {| Site := unit;
     http_get := fun st url cookies =>
       if JsString.eqb url DevelopmentApplicationMainUrl
       then (st, inr (lit "<html>main</html>", [session]))
       else if existsb (fun c => JsString.eqb (fst c) (fst session)) cookies
            then (st, inr (lit "<html>results</html>", []))
            else (st, inl (lit "no session"));
     Database := list DevelopmentApplication;
     create_table_if_not_exists := fun d => d;
     insert_or_replace := fun d r =>
       inr (filter (fun r' => negb (JsString.eqb (applicationNumber r') (applicationNumber r))) d
            ++ [r]);
     load := fun body =>
       if JsString.eqb body (lit "<html>results</html>") then page else [];
     clock := fun _ => {| Moment.year := 2023; Moment.month := 3; Moment.date := 31 |} |}.

Definition start (page : list Cheerio.node) : @World (platform page) :=
  @Build_World (platform page) [] tt [] 0 [].

(** The whole script run on a results page. *)
Definition run (page : list Cheerio.node) : outcome unit * @World (platform page) :=
  @main (platform page) (start page).

End Demo.


(** ** Further readings of the page and of a run *)

(** What is left of a string without its white space. *)
Definition non_space_part (s : jsstring) : jsstring :=
  filter (fun c => negb (is_space c)) s.

(** The three labels of lines 94 to 98. *)
Definition known_label (key : jsstring) : bool :=
  JsString.eqb key (lit "Type of Work")
  || JsString.eqb key (lit "Application No.")
  || JsString.eqb key (lit "Date Lodged").

(** The rows that the loops of lines 90 and 91 visit for a header, in the
    order they are visited. *)
Definition rows_of (headerElement : Cheerio.element) : list Cheerio.element :=
  flat_map (fun divElement => Cheerio.find divElement p_rowDataOnly)
           (Cheerio.next headerElement div).

(** Whether one of those rows has the key [label]. *)
Definition has_label (headerElement : Cheerio.element) (label : jsstring) : bool :=
  existsb (fun paragraphElement => JsString.eqb (key_of paragraphElement) label)
          (rows_of headerElement).

(** The test of line 105 for a header. *)
Definition qualifies (headerElement : Cheerio.element) : bool :=
  has_number_and_address (var_applicationNumber (read_header headerElement))
                         (address_of headerElement).

(** The three stretches of [DevelopmentApplicationSearchUrl] around its two
    places for a date. *)
Definition search_url_before : jsstring :=
  lit "https://ecouncil.npsp.sa.gov.au/eservice/daEnquiry.do?number=&lodgeRangeType=on&dateFrom=".
Definition search_url_between : jsstring := lit "&dateTo=".
Definition search_url_after : jsstring :=
  lit "&detDateFromString=&detDateToString=&streetName=&suburb=0&unitNum=&houseNum=0%0D%0A%09%09%09%09%09%09&planNumber=&strataPlan=&lotNumber=&propertyName=&searchMode=A&submitButton=Search".

(** A day written DD%2FMM%2FYYYY. *)
Definition encoded_date (c : Moment.calendar) : jsstring :=
  Moment.zeroFill (Moment.date c) 2 ++ lit "%2F"
  ++ Moment.zeroFill (Moment.month c) 2 ++ lit "%2F"
  ++ Moment.zeroFill (Moment.year c) 4.

(** The ten digits. *)
Definition digits : jsstring := [48; 49; 50; 51; 52; 53; 54; 55; 56; 57]%N.

(** A day of the month written as in the source, put to two digits. *)
Definition two_digit_day (day : jsstring) : jsstring :=
  match day with
  | [c] => [48%N; c]
  | _ => day
  end.

Section Stored.

Context {platform : Platform}.

(** The database after the rows were inserted one after the other, and the
    error of the first insert that was rejected, if one was; no row is
    tried behind a rejected one. *)
Fixpoint insert_rows (db : Database) (rows : list DevelopmentApplication)
  : Database * option jsstring :=
  match rows with
  | [] => (db, None)
  | r :: rest =>
    match insert_or_replace db r with
    | inr db' => insert_rows db' rest
    | inl e => (db, Some e)
    end
  end.

(** The rows built for the given headers when the clock has been read
    [t] times before: each takes one reading for its scrape date. *)
Fixpoint rows_at (t : nat) (hs : list Cheerio.element) : list DevelopmentApplication :=
  match hs with
  | [] => []
  | h :: rest =>
    developmentApplication_of (address_of h) (read_header h) (Moment.valid (clock t))
    :: rows_at (S t) rest
  end.

(** The rows that are handed to [insertRow] when the loop has [rows] to
    insert into [db]: one after the other, up to and including the first
    one whose insert is rejected. *)
Fixpoint handed_over (db : Database) (rows : list DevelopmentApplication)
  : list DevelopmentApplication :=
  match rows with
  | [] => []
  | r :: rest =>
    r :: match insert_or_replace db r with
         | inr db' => handed_over db' rest
         | inl _ => []
         end
  end.

End Stored.

(** ** Further pages, and a database that is full *)

Module MorePages.

Import Cheerio.

(** Two headers, each with a number and an address. *)
Definition two_headers : list node :=
  [Pages.h4 (lit "1 Main St");
   Pages.block [Pages.row "Application No." "1/2023"; Pages.row "Type of Work" "Fence"];
   Pages.h4 (lit "2 Main St");
   Pages.block [Pages.row "Application No." "2/2023"; Pages.row "Type of Work" "Shed"]].

(** A block of three rows; the key of the row in the middle differs from a
    label in letter case only. *)
Definition three_rows : element :=
  {| self := Pages.block [Pages.row "Type of Work" "Carport";
                          Pages.row "Type Of Work" "Pergola";
                          Pages.row "Application No." "9/2023"];
     siblings_after := [] |}.

(** The same with the exact label in the middle. *)
Definition three_rows_exact : element :=
  {| self := Pages.block [Pages.row "Type of Work" "Carport";
                          Pages.row "Type of Work" "Pergola";
                          Pages.row "Application No." "9/2023"];
     siblings_after := [] |}.

Definition three_rows_page : list node := [Pages.h4 (lit "5 Low St"); self three_rows].
Definition three_rows_exact_page : list node :=
  [Pages.h4 (lit "5 Low St"); self three_rows_exact].

(** As [Demo.platform], with a database that rejects every insert. *)
Definition full_platform (page : list node) : Platform :=
  {| Site := unit;
     http_get := @http_get (Demo.platform page);
     Database := list DevelopmentApplication;
     create_table_if_not_exists := fun d => d;
     insert_or_replace := fun _ _ => inl (lit "SQLITE_FULL: database or disk is full");
     load := @load (Demo.platform page);
     clock := @clock (Demo.platform page) |}.

Definition full_start (page : list node) : @World (full_platform page) :=
  @Build_World (full_platform page) [] tt [] 0 [].

End MorePages.

(* ===================================================================== *)
(** * Properties *)
(* ===================================================================== *)

(** ** Strings *)

Lemma eqb_eq (s t : jsstring) : JsString.eqb s t = true <-> s = t.
Proof.
  unfold JsString.eqb. destruct (list_eq_dec N.eq_dec s t); split; congruence.
Qed.

Lemma eqb_neq (s t : jsstring) : JsString.eqb s t = false <-> s <> t.
Proof.
  unfold JsString.eqb. destruct (list_eq_dec N.eq_dec s t); split; congruence.
Qed.

Lemma eqb_refl (s : jsstring) : JsString.eqb s s = true.
Proof. now apply eqb_eq. Qed.

Lemma replace_cons matcher replacement c rest :
  replace matcher replacement (c :: rest) =
  match matcher (c :: rest) with
  | 0 => c :: replace matcher replacement rest
  | S n => replacement ++ replace matcher replacement (skipn n rest)
  end.
Proof.
  simp replace. destruct (matcher (c :: rest)); reflexivity.
Qed.

Local Abbreviation collapse := (replace re_ws_ws_plus [SPACE]).

Lemma jsstring_length_ind (P : jsstring -> Prop) :
  (forall s, (forall t, length t < length s -> P t) -> P s) -> forall s, P s.
Proof.
  intros step s.
  assert (H : forall n t, length t < n -> P t).
  { induction n as [|n IH]; intros t Ht; [lia|].
    apply step. intros u Hu. apply IH. lia. }
  apply (H (S (length s))). lia.
Qed.

Lemma take_drop_while p s : take_while p s ++ drop_while p s = s.
Proof.
  induction s as [|c r IH]; simpl; [reflexivity|].
  destruct (p c); simpl; [now rewrite IH | reflexivity].
Qed.

Lemma skipn_take_while p s : skipn (length (take_while p s)) s = drop_while p s.
Proof.
  induction s as [|c r IH]; simpl; [reflexivity|].
  destruct (p c); simpl; [exact IH | reflexivity].
Qed.

Lemma length_drop_while p s : length (drop_while p s) <= length s.
Proof.
  induction s as [|c r IH]; simpl; [lia|].
  destruct (p c); simpl; lia.
Qed.

Lemma starts_with_space_drop_while s :
  starts_with_space (drop_while is_space s) = false.
Proof.
  induction s as [|c r IH]; simpl; [reflexivity|].
  destruct (is_space c) eqn:E; simpl; [exact IH | exact E].
Qed.

Lemma drop_while_no_space s :
  starts_with_space s = false -> drop_while is_space s = s.
Proof.
  destruct s as [|c r]; simpl; [reflexivity|]. now intros ->.
Qed.

Lemma re_ws_ws_plus_cons c rest :
  re_ws_ws_plus (c :: rest) =
  if is_space c && starts_with_space rest
  then S (length (take_while is_space rest)) else 0.
Proof.
  unfold re_ws_ws_plus. simpl. destruct (is_space c); simpl; [|reflexivity].
  destruct rest as [|d r]; simpl; [reflexivity|].
  destruct (is_space d); reflexivity.
Qed.

(** One step of the scan of [/\s\s+/g]. *)
Lemma collapse_cons c rest :
  collapse (c :: rest) =
  if is_space c && starts_with_space rest
  then SPACE :: collapse (drop_while is_space rest)
  else c :: collapse rest.
Proof.
  rewrite replace_cons, re_ws_ws_plus_cons.
  destruct (is_space c && starts_with_space rest); [|reflexivity].
  now rewrite skipn_take_while.
Qed.

Lemma collapse_nil : collapse [] = [].
Proof. now simp replace. Qed.

Lemma collapse_starts s : starts_with_space (collapse s) = starts_with_space s.
Proof.
  destruct s as [|c r]; [now rewrite collapse_nil|].
  rewrite collapse_cons.
  destruct (is_space c) eqn:Ec, (starts_with_space r); simpl; now rewrite ?Ec.
Qed.

Lemma collapse_not_nil s : s <> [] -> collapse s <> [].
Proof.
  destruct s as [|c r]; [congruence|]. intros _.
  rewrite collapse_cons. destruct (is_space c && starts_with_space r); discriminate.
Qed.

Lemma collapse_adjacent s : adjacent_spaces (collapse s) = false.
Proof.
  induction s as [s IH] using jsstring_length_ind.
  destruct s as [|c r]; [now rewrite collapse_nil|].
  rewrite collapse_cons.
  destruct (is_space c && starts_with_space r) eqn:E; simpl.
  - rewrite collapse_starts, starts_with_space_drop_while.
    change (is_space SPACE && false) with false. simpl.
    apply IH. simpl. pose proof (length_drop_while is_space r). lia.
  - rewrite collapse_starts, E. simpl. apply IH. simpl. lia.
Qed.

Lemma ends_cons c s :
  ends_with_space (c :: s) =
  match s with [] => is_space c | _ :: _ => ends_with_space s end.
Proof. destruct s; reflexivity. Qed.

Lemma ends_snoc s c : ends_with_space (s ++ [c]) = is_space c.
Proof.
  induction s as [|d r IH]; [reflexivity|].
  change ((d :: r) ++ [c]) with (d :: (r ++ [c])).
  rewrite ends_cons. destruct (r ++ [c]) eqn:E; [|exact IH].
  now destruct r.
Qed.

Lemma ends_rev s : ends_with_space (rev s) = starts_with_space s.
Proof.
  destruct s as [|c r]; [reflexivity|]. simpl. apply ends_snoc.
Qed.

Lemma starts_rev s : starts_with_space (rev s) = ends_with_space s.
Proof. now rewrite <- ends_rev, rev_involutive. Qed.

Lemma ends_all_space s :
  s <> [] -> forallb is_space s = true -> ends_with_space s = true.
Proof.
  induction s as [|c r IH]; [congruence|]. intros _ H.
  simpl in H. apply andb_prop in H as [Hc Hr].
  rewrite ends_cons. destruct r; [exact Hc|]. now apply IH.
Qed.

Lemma drop_while_nil_all p s : drop_while p s = [] -> forallb p s = true.
Proof.
  induction s as [|c r IH]; simpl; [reflexivity|].
  destruct (p c); simpl; [exact IH | discriminate].
Qed.

Lemma ends_drop_while s :
  drop_while is_space s <> [] ->
  ends_with_space (drop_while is_space s) = ends_with_space s.
Proof.
  induction s as [|c r IH]; [simpl; congruence|].
  change (drop_while is_space (c :: r))
    with (if is_space c then drop_while is_space r else c :: r).
  destruct (is_space c); [|reflexivity].
  intros H. rewrite (IH H), ends_cons.
  destruct r; [exfalso; now apply H | reflexivity].
Qed.

Lemma collapse_ends s : ends_with_space (collapse s) = ends_with_space s.
Proof.
  induction s as [s IH] using jsstring_length_ind.
  destruct s as [|c r]; [now rewrite collapse_nil|].
  rewrite collapse_cons.
  destruct (is_space c && starts_with_space r) eqn:E.
  - apply andb_prop in E as [Ec Er].
    destruct (drop_while is_space r) eqn:D.
    + rewrite collapse_nil. transitivity true; [reflexivity|].
      symmetry. apply ends_all_space; [discriminate|].
      simpl. rewrite Ec. simpl. now apply drop_while_nil_all.
    + rewrite <- D. rewrite ends_cons.
      destruct (collapse (drop_while is_space r)) eqn:C.
      { exfalso. apply (@collapse_not_nil (drop_while is_space r)); [rewrite D; discriminate | exact C]. }
      rewrite <- C, IH.
      * rewrite ends_drop_while by (rewrite D; discriminate).
        rewrite ends_cons. destruct r; [discriminate|reflexivity].
      * simpl. pose proof (length_drop_while is_space r). lia.
  - rewrite !ends_cons. destruct r as [|d r']; [now rewrite collapse_nil|].
    destruct (collapse (d :: r')) eqn:C.
    { exfalso. apply (@collapse_not_nil (d :: r')); [discriminate | exact C]. }
    rewrite <- C. apply IH. simpl. lia.
Qed.

Lemma collapse_fixed s : adjacent_spaces s = false -> collapse s = s.
Proof.
  induction s as [|c r IH]; [intros _; apply collapse_nil|].
  simpl. intros H. apply orb_false_elim in H as [H1 H2].
  rewrite collapse_cons, H1. now rewrite IH.
Qed.

Lemma trim_end_prefix s : exists q, s = trim_end s ++ q /\ forallb is_space q = true.
Proof.
  unfold trim_end. exists (rev (take_while is_space (rev s))). split.
  - rewrite <- rev_app_distr, take_drop_while. now rewrite rev_involutive.
  - rewrite forallb_forall. intros x Hx. apply in_rev in Hx.
    revert Hx. generalize (rev s). intros l. induction l as [|c r IH]; simpl; [tauto|].
    destruct (is_space c) eqn:E; simpl; [|tauto]. intros [<-|H]; auto.
Qed.

Lemma ends_trim_end s : ends_with_space (trim_end s) = false.
Proof.
  unfold trim_end. rewrite ends_rev. apply starts_with_space_drop_while.
Qed.

Lemma starts_trim_end s :
  starts_with_space s = false -> starts_with_space (trim_end s) = false.
Proof.
  intros H. destruct (trim_end_prefix s) as [q [Hq _]].
  destruct (trim_end s) as [|c r]; [reflexivity|].
  rewrite Hq in H. exact H.
Qed.

Lemma trim_end_fixed s : ends_with_space s = false -> trim_end s = s.
Proof.
  intros H. unfold trim_end. rewrite drop_while_no_space.
  - apply rev_involutive.
  - now rewrite starts_rev.
Qed.

Lemma starts_trim s : starts_with_space (trim s) = false.
Proof. apply starts_trim_end, starts_with_space_drop_while. Qed.

Lemma ends_trim s : ends_with_space (trim s) = false.
Proof. apply ends_trim_end. Qed.

Lemma trim_fixed s :
  starts_with_space s = false -> ends_with_space s = false -> trim s = s.
Proof.
  intros H1 H2. unfold trim, trim_start. rewrite (drop_while_no_space _ H1).
  now apply trim_end_fixed.
Qed.

(** C5.  For every string, the text left by [trim()] followed by
    [replace(/\s\s+/g, " ")] has no two white-space characters next to each
    other, neither begins nor ends with white space, and is left as it is
    by a second application. *)
Theorem normalizeWhitespace_shape_and_idempotent (s : jsstring) :
  adjacent_spaces (normalizeWhitespace s) = false
  /\ starts_with_space (normalizeWhitespace s) = false
  /\ ends_with_space (normalizeWhitespace s) = false
  /\ normalizeWhitespace (normalizeWhitespace s) = normalizeWhitespace s.
Proof.
  assert (A : adjacent_spaces (normalizeWhitespace s) = false)
    by apply collapse_adjacent.
  assert (B : starts_with_space (normalizeWhitespace s) = false)
    by (unfold normalizeWhitespace; rewrite collapse_starts; apply starts_trim).
  assert (C : ends_with_space (normalizeWhitespace s) = false)
    by (unfold normalizeWhitespace; rewrite collapse_ends; apply ends_trim).
  repeat split; trivial.
  unfold normalizeWhitespace at 1.
  rewrite (trim_fixed _ B C). now apply collapse_fixed.
Qed.

Lemma drop_while_app_stop x a y :
  is_space a = false ->
  drop_while is_space (x ++ a :: y) = drop_while is_space x ++ a :: y.
Proof.
  intros Ha. induction x as [|c r IH]; simpl; [now rewrite Ha|].
  destruct (is_space c); [exact IH | reflexivity].
Qed.

Lemma drop_while_all_space s :
  forallb is_space s = true -> drop_while is_space s = [].
Proof.
  induction s as [|c r IH]; simpl; [reflexivity|].
  intros H. apply andb_prop in H as [-> Hr]. now apply IH.
Qed.

Lemma drop_while_app x y :
  drop_while is_space (x ++ y) =
  match drop_while is_space x with
  | [] => drop_while is_space y
  | _ :: _ => drop_while is_space x ++ y
  end.
Proof.
  induction x as [|c r IH]; simpl; [reflexivity|].
  destruct (is_space c); [exact IH | reflexivity].
Qed.

Lemma starts_app_stop x a y :
  starts_with_space (x ++ a :: y) = starts_with_space (x ++ [a]).
Proof. now destruct x. Qed.

(** The scan can be cut behind a character that is not white space. *)
Lemma collapse_app_stop x a y :
  is_space a = false ->
  collapse (x ++ a :: y) = collapse (x ++ [a]) ++ collapse y.
Proof.
  intros Ha. pattern x. apply jsstring_length_ind. clear x. intros x IH.
  destruct x as [|c r].
  - simpl. rewrite !collapse_cons, Ha, collapse_nil. reflexivity.
  - change ((c :: r) ++ a :: y) with (c :: (r ++ a :: y)).
    change ((c :: r) ++ [a]) with (c :: (r ++ [a])).
    rewrite !collapse_cons, (starts_app_stop r a y).
    destruct (is_space c && starts_with_space (r ++ [a])).
    + rewrite !drop_while_app_stop by exact Ha. simpl. f_equal.
      apply IH. simpl. pose proof (length_drop_while is_space r). lia.
    + simpl. f_equal. apply IH. simpl. lia.
Qed.

(** A run of white space in front of another character: two or more
    become one space, a single one stays. *)
Lemma collapse_run r b y :
  r <> [] -> forallb is_space r = true -> is_space b = false ->
  collapse (r ++ b :: y) =
  (if 2 <=? length r then [SPACE] else r) ++ collapse (b :: y).
Proof.
  intros Hr Hall Hb. destruct r as [|c r]; [congruence|].
  simpl in Hall. apply andb_prop in Hall as [Hc Hall].
  change ((c :: r) ++ b :: y) with (c :: (r ++ b :: y)).
  rewrite collapse_cons, Hc. destruct r as [|d r].
  - simpl. now rewrite Hb.
  - simpl in Hall. apply andb_prop in Hall as [Hd Hall].
    change (starts_with_space ((d :: r) ++ b :: y)) with (is_space d).
    rewrite Hd. simpl andb. cbv iota.
    rewrite drop_while_app_stop by exact Hb.
    rewrite drop_while_all_space by (simpl; now rewrite Hd).
    reflexivity.
Qed.

Lemma trim_end_app_stop x b v :
  is_space b = false -> trim_end (x ++ b :: v) = x ++ b :: trim_end v.
Proof.
  intros Hb. unfold trim_end.
  rewrite rev_app_distr. simpl. rewrite <- app_assoc. simpl.
  rewrite drop_while_app_stop by exact Hb.
  rewrite rev_app_distr. simpl. rewrite rev_involutive, <- app_assoc. reflexivity.
Qed.

Lemma forallb_rev_space s : forallb is_space (rev s) = forallb is_space s.
Proof.
  induction s as [|c r IH]; [reflexivity|].
  simpl. rewrite forallb_app, IH. simpl. rewrite andb_true_r. apply andb_comm.
Qed.

Lemma trim_end_app_spaces x t :
  forallb is_space t = true -> trim_end (x ++ t) = trim_end x.
Proof.
  intros Ht. unfold trim_end. rewrite rev_app_distr, drop_while_app.
  rewrite drop_while_all_space by now rewrite forallb_rev_space.
  reflexivity.
Qed.

Lemma trim_start_app_spaces l x :
  forallb is_space l = true -> trim_start (l ++ x) = trim_start x.
Proof.
  intros Hl. unfold trim_start. rewrite drop_while_app.
  now rewrite drop_while_all_space.
Qed.

Lemma trim_surrounded l s t :
  forallb is_space l = true -> forallb is_space t = true ->
  trim (l ++ s ++ t) = trim s.
Proof.
  intros Hl Ht. unfold trim. rewrite trim_start_app_spaces by exact Hl.
  unfold trim_start at 1. rewrite drop_while_app.
  destruct (drop_while is_space s) eqn:D.
  - rewrite drop_while_all_space by exact Ht.
    unfold trim_start. now rewrite D.
  - rewrite <- D. fold (trim_start s). now apply trim_end_app_spaces.
Qed.

Lemma trim_app_stop u a y :
  is_space a = false -> trim_start (u ++ a :: y) = trim_start u ++ a :: y.
Proof. apply drop_while_app_stop. Qed.

(** C4, as the script has it.  The expression of line 85 removes the
    white space around the text; inside it, a run of two or more white-space
    characters between two other characters becomes one space, and a
    single white-space character (a lone tab or newline too) stays as it
    is.  The text on either side of the run is treated in the same way. *)
Theorem normalizeWhitespace_runs
  (l s t u r v : jsstring) (a b : char16)
  (Hl : forallb is_space l = true) (Ht : forallb is_space t = true)
  (Ha : is_space a = false) (Hb : is_space b = false)
  (Hr : forallb is_space r = true) (Hr0 : r <> []) :
  normalizeWhitespace (l ++ s ++ t) = normalizeWhitespace s
  /\ normalizeWhitespace (u ++ [a] ++ r ++ b :: v) =
     normalizeWhitespace (u ++ [a])
     ++ (if 2 <=? length r then [SPACE] else r)
     ++ normalizeWhitespace (b :: v).
Proof.
  split.
  - unfold normalizeWhitespace. now rewrite trim_surrounded.
  - unfold normalizeWhitespace, trim.
    change (u ++ [a] ++ r ++ b :: v) with (u ++ a :: (r ++ b :: v)).
    rewrite (trim_app_stop u a (r ++ b :: v) Ha).
    rewrite (trim_app_stop u a [] Ha).
    replace (trim_start u ++ a :: r ++ b :: v)
      with ((trim_start u ++ a :: r) ++ b :: v)
      by (rewrite <- app_assoc; reflexivity).
    rewrite (trim_end_app_stop _ b v Hb).
    rewrite (trim_end_app_stop (trim_start u) a [] Ha).
    change (trim_start (b :: v)) with (if is_space b then trim_start v else b :: v).
    rewrite Hb. rewrite (trim_end_app_stop [] b v Hb : trim_end (b :: v) = _).
    change (trim_end []) with (@nil char16). simpl app.
    rewrite <- app_assoc. simpl app.
    rewrite (@collapse_app_stop (trim_start u) a (r ++ b :: trim_end v) Ha).
    now rewrite (@collapse_run r b (trim_end v) Hr0 Hr Hb).
Qed.

Lemma normalizeWhitespace_runs_witness :
  normalizeWhitespace ([SPACE] ++ lit "x" ++ [LF]) = normalizeWhitespace (lit "x")
  /\ normalizeWhitespace (lit "1" ++ lit "2" ++ [TAB] ++ lit "Smith St") =
     normalizeWhitespace (lit "1" ++ lit "2") ++ [TAB] ++ normalizeWhitespace (lit "Smith St").
Proof.
  apply (@normalizeWhitespace_runs [SPACE] (lit "x") [LF] (lit "1") [TAB] (lit "mith St")
           50%N 83%N); try reflexivity; discriminate.
Defined.

(** C4, as the claim states it, fails: a single tab inside the text of a
    header is kept and not replaced by a space. *)
Lemma address_keeps_single_tab :
  address_of {| Cheerio.self :=
                  Cheerio.Element "h4" ["non_table_headers"%string]
                    [Cheerio.Text (lit "12" ++ [TAB] ++ lit "Smith St")];
                Cheerio.siblings_after := [] |}
  = lit "12" ++ [TAB] ++ lit "Smith St"
  /\ lit "12" ++ [TAB] ++ lit "Smith St" <> lit "12 Smith St".
Proof. split; [vm_compute; reflexivity | discriminate]. Qed.

(** ** Dates *)

Lemma day_token_leading_zero c rest :
  Moment.is_digit c = true ->
  Moment.number_token 1 2 (48%N :: c :: 47%N :: rest)
  = Moment.number_token 1 2 (c :: 47%N :: rest).
Proof.
  intros Hc. unfold Moment.number_token. cbn [Moment.leading_digits].
  change (Moment.is_digit 48%N) with true.
  change (Moment.is_digit 47%N) with false.
  rewrite Hc. cbn [length Nat.leb skipn].
  replace (Moment.toInt [48%N; c]) with (Moment.toInt [c]); [reflexivity|].
  unfold Moment.toInt. cbn [fold_left].
  change (N.to_nat 48 - 48) with 0. lia.
Qed.

(** C6.  With the pattern D/MM/YYYY in strict mode the day may be written
    with or without a leading zero: for every digit [c], "0c/..." and
    "c/..." parse alike; "5/08/2023" and "05/08/2023" both give the 5th of
    August 2023; and "not a date" gives the invalid moment.  The parser is
    a total function, so no input makes it throw. *)
Theorem parse_day_with_or_without_leading_zero
  (c : char16) (rest : jsstring) (Hc : Moment.is_digit c = true) :
  Moment.parse_D_MM_YYYY_strict (48%N :: c :: 47%N :: rest)
  = Moment.parse_D_MM_YYYY_strict (c :: 47%N :: rest)
  /\ Moment.parse_D_MM_YYYY_strict (lit "5/08/2023")
     = Moment.valid {| Moment.year := 2023; Moment.month := 8; Moment.date := 5 |}
  /\ Moment.parse_D_MM_YYYY_strict (lit "05/08/2023")
     = Moment.valid {| Moment.year := 2023; Moment.month := 8; Moment.date := 5 |}
  /\ Moment.parse_D_MM_YYYY_strict (lit "not a date") = Moment.invalid.
Proof.
  split; [|repeat split; vm_compute; reflexivity].
  unfold Moment.parse_D_MM_YYYY_strict. now rewrite day_token_leading_zero.
Qed.

Lemma parse_day_with_or_without_leading_zero_witness :
  Moment.parse_D_MM_YYYY_strict (lit "07/11/2019")
  = Moment.parse_D_MM_YYYY_strict (lit "7/11/2019").
Proof.
  exact (proj1 (@parse_day_with_or_without_leading_zero 55%N (lit "11/2019") eq_refl)).
Defined.

(** ** The rows of a header *)

Lemma assign_type_of_work vars value :
  assign vars (lit "Type of Work") value =
  {| var_applicationNumber := var_applicationNumber vars;
     var_reason := value;
     var_receivedDate := var_receivedDate vars |}.
Proof. reflexivity. Qed.

Lemma assign_application_no vars value :
  assign vars (lit "Application No.") value =
  {| var_applicationNumber := value;
     var_reason := var_reason vars;
     var_receivedDate := var_receivedDate vars |}.
Proof. reflexivity. Qed.

Lemma assign_date_lodged vars value :
  assign vars (lit "Date Lodged") value =
  {| var_applicationNumber := var_applicationNumber vars;
     var_reason := var_reason vars;
     var_receivedDate := Moment.parse_D_MM_YYYY_strict value |}.
Proof. reflexivity. Qed.

Lemma assign_reason_other vars key value :
  key <> lit "Type of Work" -> var_reason (assign vars key value) = var_reason vars.
Proof.
  intros H. unfold assign. apply eqb_neq in H. rewrite H.
  destruct (JsString.eqb key (lit "Application No."));
    [|destruct (JsString.eqb key (lit "Date Lodged"))]; reflexivity.
Qed.

Lemma assign_number_other vars key value :
  key <> lit "Application No." ->
  var_applicationNumber (assign vars key value) = var_applicationNumber vars.
Proof.
  intros H. unfold assign. apply eqb_neq in H. rewrite H.
  destruct (JsString.eqb key (lit "Type of Work"));
    [|destruct (JsString.eqb key (lit "Date Lodged"))]; reflexivity.
Qed.

Lemma assign_date_other vars key value :
  key <> lit "Date Lodged" ->
  var_receivedDate (assign vars key value) = var_receivedDate vars.
Proof.
  intros H. unfold assign. apply eqb_neq in H. rewrite H.
  destruct (JsString.eqb key (lit "Type of Work"));
    [|destruct (JsString.eqb key (lit "Application No."))]; reflexivity.
Qed.

Lemma assign_unknown vars key value :
  key <> lit "Type of Work" -> key <> lit "Application No." ->
  key <> lit "Date Lodged" -> assign vars key value = vars.
Proof.
  intros H1 H2 H3. unfold assign.
  apply eqb_neq in H1, H2, H3. now rewrite H1, H2, H3.
Qed.

(** C7.  Every row found in the block of a header is read by its key and
    value, the trimmed texts of its [span.key] and [span.inputField]
    children, and changes a variable exactly when the key is that variable's
    label, character for character: "Type of Work" sets the reason,
    "Application No." the application number, "Date Lodged" the date
    received (the parsed value); under any other key, such as one in other
    letter case or with a colon behind it, the variables stay as they are.
    The rows before it are read first and the rows behind it afterwards. *)
Theorem every_row_is_assigned_by_exact_label
  (vars : variables)
  (headerElement divElement paragraphElement : Cheerio.element)
  (before after : list Cheerio.element)
  (Hrows : Cheerio.find divElement p_rowDataOnly = before ++ paragraphElement :: after) :
  let key := trim (Cheerio.text (Cheerio.children paragraphElement span_key)) in
  let value := trim (Cheerio.text (Cheerio.children paragraphElement span_inputField)) in
  let was :=
    fold_left (fun vars q => assign vars (key_of q) (value_of q)) before vars in
  read_paragraphs vars divElement =
  fold_left (fun vars q => assign vars (key_of q) (value_of q)) after
            (assign was key value)
  /\ (Cheerio.next headerElement div = [divElement] ->
      read_header headerElement =
      fold_left (fun vars q => assign vars (key_of q) (value_of q)) after
        (assign
           (fold_left (fun vars q => assign vars (key_of q) (value_of q))
                      before initial_variables)
           key value))
  /\ (key = lit "Type of Work" ->
      assign was key value =
      {| var_applicationNumber := var_applicationNumber was;
         var_reason := value;
         var_receivedDate := var_receivedDate was |})
  /\ (key = lit "Application No." ->
      assign was key value =
      {| var_applicationNumber := value;
         var_reason := var_reason was;
         var_receivedDate := var_receivedDate was |})
  /\ (key = lit "Date Lodged" ->
      assign was key value =
      {| var_applicationNumber := var_applicationNumber was;
         var_reason := var_reason was;
         var_receivedDate := Moment.parse_D_MM_YYYY_strict value |})
  /\ (key <> lit "Type of Work" ->
      var_reason (assign was key value) = var_reason was)
  /\ (key <> lit "Application No." ->
      var_applicationNumber (assign was key value) = var_applicationNumber was)
  /\ (key <> lit "Date Lodged" ->
      var_receivedDate (assign was key value) = var_receivedDate was)
  /\ (key <> lit "Type of Work" -> key <> lit "Application No." ->
      key <> lit "Date Lodged" -> assign was key value = was).
Proof.
  intros key value was.
  assert (Hread : forall v,
             read_paragraphs v divElement =
             fold_left (fun vars q => assign vars (key_of q) (value_of q)) after
               (assign (fold_left (fun vars q => assign vars (key_of q) (value_of q))
                                  before v)
                       key value)).
  { intros v. unfold read_paragraphs. rewrite Hrows, fold_left_app. reflexivity. }
  split; [apply Hread|].
  split; [intros Hnext; unfold read_header; rewrite Hnext; apply Hread|].
  repeat split.
  - intros ->. apply assign_type_of_work.
  - intros ->. apply assign_application_no.
  - intros ->. apply assign_date_lodged.
  - apply assign_reason_other.
  - apply assign_number_other.
  - apply assign_date_other.
  - apply assign_unknown.
Qed.

Lemma every_row_is_assigned_by_exact_label_witness :
  read_header (Pages.header_of MorePages.three_rows_page)
  = {| var_applicationNumber := lit "9/2023";
       var_reason := lit "Carport";
       var_receivedDate := Moment.invalid |}
  /\ read_header (Pages.header_of MorePages.three_rows_exact_page)
     = {| var_applicationNumber := lit "9/2023";
          var_reason := lit "Pergola";
          var_receivedDate := Moment.invalid |}.
Proof.
  pose (dummy := Pages.header_of []).
  split.
  - pose (rows := Cheerio.find MorePages.three_rows p_rowDataOnly).
    pose proof (@every_row_is_assigned_by_exact_label initial_variables
                  (Pages.header_of MorePages.three_rows_page)
                  MorePages.three_rows (nth 1 rows dummy)
                  (firstn 1 rows) (skipn 2 rows) eq_refl)
      as (_ & Hheader & _ & _ & _ & _ & _ & _ & Hother).
    rewrite (Hheader eq_refl).
    rewrite Hother by (vm_compute; discriminate).
    vm_compute; reflexivity.
  - pose (rows := Cheerio.find MorePages.three_rows_exact p_rowDataOnly).
    pose proof (@every_row_is_assigned_by_exact_label initial_variables
                  (Pages.header_of MorePages.three_rows_exact_page)
                  MorePages.three_rows_exact (nth 1 rows dummy)
                  (firstn 1 rows) (skipn 2 rows) eq_refl)
      as (_ & Hheader & Hlabel & _).
    rewrite (Hheader eq_refl).
    rewrite Hlabel by (vm_compute; reflexivity).
    vm_compute; reflexivity.
Defined.

Local Abbreviation read_row :=
  (fun vars paragraphElement =>
     assign vars (key_of paragraphElement) (value_of paragraphElement)).

Lemma rows_keep_reason rows vars :
  Forall (fun q => key_of q <> lit "Type of Work") rows ->
  var_reason (fold_left read_row rows vars) = var_reason vars.
Proof.
  intros H. revert vars. induction H as [|q r Hq _ IH]; intros vars; [reflexivity|].
  simpl. rewrite IH. now apply assign_reason_other.
Qed.

Lemma rows_keep_number rows vars :
  Forall (fun q => key_of q <> lit "Application No.") rows ->
  var_applicationNumber (fold_left read_row rows vars) = var_applicationNumber vars.
Proof.
  intros H. revert vars. induction H as [|q r Hq _ IH]; intros vars; [reflexivity|].
  simpl. rewrite IH. now apply assign_number_other.
Qed.

Lemma rows_keep_date rows vars :
  Forall (fun q => key_of q <> lit "Date Lodged") rows ->
  var_receivedDate (fold_left read_row rows vars) = var_receivedDate vars.
Proof.
  intros H. revert vars. induction H as [|q r Hq _ IH]; intros vars; [reflexivity|].
  simpl. rewrite IH. now apply assign_date_other.
Qed.



(** ** The block of a header *)

Lemma next_element_behind_text ts k more :
  Cheerio.next_element (map Cheerio.Text ts ++ k :: more) = Cheerio.next_element (k :: more).
Proof. induction ts as [|t r IH]; [reflexivity | exact IH]. Qed.

Lemma next_element_text_only ts : Cheerio.next_element (map Cheerio.Text ts) = None.
Proof. induction ts as [|t r IH]; [reflexivity | exact IH]. Qed.

(** C3, as the script has it.  For a header the script reads one block at
    most: the element that follows the header directly (text between them
    aside), and only when that element is a [div].  All rows inside that
    block are read; whatever comes behind it, further [div]s included, is
    not looked at.  A header without a following element reads nothing. *)
Theorem read_header_reads_the_next_div_only
  (hdr : Cheerio.node) (ts : list jsstring) (name : string) (classes : list string)
  (kids more : list Cheerio.node) :
  read_header {| Cheerio.self := hdr;
                 Cheerio.siblings_after :=
                   map Cheerio.Text ts ++ Cheerio.Element name classes kids :: more |}
  = (if String.eqb name "div"
     then fold_left
            (fun vars paragraphElement =>
               assign vars (key_of paragraphElement) (value_of paragraphElement))
            (Cheerio.descend_all p_rowDataOnly kids) initial_variables
     else initial_variables)
  /\ read_header {| Cheerio.self := hdr; Cheerio.siblings_after := map Cheerio.Text ts |}
     = initial_variables
  /\ length (Cheerio.next
               {| Cheerio.self := hdr;
                  Cheerio.siblings_after :=
                    map Cheerio.Text ts ++ Cheerio.Element name classes kids :: more |}
               div) <= 1.
Proof.
  unfold read_header, Cheerio.next. cbn [Cheerio.siblings_after].
  rewrite next_element_behind_text, next_element_text_only.
  cbn [Cheerio.next_element Cheerio.self Cheerio.matches div Cheerio.tag Cheerio.class].
  rewrite andb_true_r.
  destruct (String.eqb name "div"); repeat split; simpl; auto.
Qed.

(** C3, as the claim states it, fails: the application number stands in
    the second block behind the header and is not read, so the header has
    no number; reading every block would have found it. *)
Lemma second_block_is_not_read :
  candidate (Pages.header_of Pages.two_blocks)
  = (lit "", lit "7 High St", lit "Verandah", lit "Invalid date")
  /\ var_applicationNumber (read_header_all_blocks (Pages.header_of Pages.two_blocks))
     = lit "77/2023"
  /\ inserted (events (snd (Demo.run Pages.two_blocks))) = [].
Proof. repeat split; vm_compute; reflexivity. Qed.

(** ** The loop over the headers *)

Lemma inserted_app a b : inserted (a ++ b) = inserted a ++ inserted b.
Proof.
  induction a as [|e r IH]; [reflexivity|].
  destruct e; simpl; now rewrite IH.
Qed.

Lemma requests_app a b : requests (a ++ b) = requests a ++ requests b.
Proof.
  induction a as [|e r IH]; [reflexivity|].
  destruct e; simpl; now rewrite IH.
Qed.

Lemma has_number_and_address_iff a b :
  has_number_and_address a b = true <-> a <> [] /\ b <> [].
Proof.
  unfold has_number_and_address. rewrite andb_true_iff, !negb_true_iff.
  change (lit "") with (@nil char16). now rewrite !eqb_neq.
Qed.

Section Loop.

Context {platform : Platform}.

(** What one header does to the world. *)
Lemma parse_header_events (headerElement : Cheerio.element) (w : World) :
  events (snd (parse_header headerElement w)) =
  events w ++
  (if has_number_and_address (number_of (candidate headerElement))
                             (address_in (candidate headerElement))
   then [InsertRow (developmentApplication_of
                      (address_of headerElement) (read_header headerElement)
                      (Moment.valid (clock (ticks w))))]
   else []).
Proof.
  unfold parse_header, candidate, number_of, address_in. cbn [fst snd].
  destruct (has_number_and_address _ _).
  - unfold await, moment_now, insertRow. cbn [data emit events ticks].
    destruct (insert_or_replace _ _); reflexivity.
  - unfold resolve. cbn [snd]. now rewrite app_nil_r.
Qed.

Lemma for_each_single (headerElement : Cheerio.element) (w : World) :
  events (snd (for_each [headerElement] parse_header w))
  = events (snd (parse_header headerElement w)).
Proof.
  unfold for_each, await.
  destruct (parse_header headerElement w) as [[[]|e] w']; reflexivity.
Qed.

Lemma for_each_cons {A : Type} (x : A) rest (body : A -> Promise unit) (w : World) :
  for_each (x :: rest) body w =
  match body x w with
  | (Resolved _, w') => for_each rest body w'
  | (Rejected e, w') => (Rejected e, w')
  end.
Proof. reflexivity. Qed.

Lemma parse_header_dropped (headerElement : Cheerio.element) (w : World) :
  has_number_and_address (number_of (candidate headerElement))
                         (address_in (candidate headerElement)) = false ->
  parse_header headerElement w = (Resolved tt, w).
Proof.
  unfold parse_header, candidate, number_of, address_in. cbn [fst snd].
  now intros ->.
Qed.

Lemma for_each_parse_header (hs : list Cheerio.element) (w : World) :
  exists processed skipped new,
    hs = processed ++ skipped
    /\ events (snd (for_each hs parse_header w)) = events w ++ new
    /\ requests new = []
    /\ map fields_of (inserted new) =
       filter (fun c => has_number_and_address (number_of c) (address_in c))
              (map candidate processed)
    /\ (fst (for_each hs parse_header w) = Resolved tt -> skipped = []).
Proof.
  revert w. induction hs as [|h rest IH]; intros w.
  - exists [], [], []. simpl. rewrite app_nil_r. repeat split.
  - rewrite for_each_cons.
    pose proof (parse_header_events h w) as Hev.
    destruct (has_number_and_address (number_of (candidate h)) (address_in (candidate h)))
      eqn:Hacc.
    + destruct (parse_header h w) as [[[]|e] w1]; cbn [snd] in Hev.
      * destruct (IH w1) as (processed & skipped & new & Hhs & Hnew & Hreq & Hins & Hres).
        exists (h :: processed), skipped, (InsertRow (developmentApplication_of
                      (address_of h) (read_header h)
                      (Moment.valid (clock (ticks w)))) :: new).
        split; [simpl; now rewrite Hhs|].
        split; [rewrite Hnew, Hev, <- app_assoc; reflexivity|].
        split; [exact Hreq|].
        split; [|exact Hres].
        cbn [map filter inserted]. rewrite Hacc, Hins. reflexivity.
      * exists [h], rest, [InsertRow (developmentApplication_of
                      (address_of h) (read_header h)
                      (Moment.valid (clock (ticks w))))].
        split; [reflexivity|]. split; [exact Hev|]. split; [reflexivity|].
        split; [|discriminate].
        cbn [map filter inserted]. now rewrite Hacc.
    + rewrite (parse_header_dropped h w Hacc).
      destruct (IH w) as (processed & skipped & new & Hhs & Hnew & Hreq & Hins & Hres).
      exists (h :: processed), skipped, new.
      split; [simpl; now rewrite Hhs|].
      split; [exact Hnew|]. split; [exact Hreq|]. split; [|exact Hres].
      cbn [map filter]. now rewrite Hacc.
Qed.

End Loop.

Section Results.

Context {platform : Platform}.

Lemma single_header_events (page : list Cheerio.node) (w : World) :
  Cheerio.select page h4_non_table_headers = [Pages.header_of page] ->
  has_number_and_address (number_of (candidate (Pages.header_of page)))
                         (address_in (candidate (Pages.header_of page))) = true ->
  events (snd (parse_search_results page w)) =
  events w ++
  [InsertRow (developmentApplication_of
                (address_of (Pages.header_of page)) (read_header (Pages.header_of page))
                (Moment.valid (clock (ticks w))))].
Proof.
  intros Hsel Hacc. unfold parse_search_results.
  now rewrite Hsel, for_each_single, parse_header_events, Hacc.
Qed.

(** C1, at a page whose only header has an application number and no
    "Date Lodged" row: the row handed to [insertRow] carries the date
    received "Invalid date".  The condition of line 112 reads the member
    [isValid] without calling it, so the formatted text is taken for every
    moment and the empty string never. *)
Theorem missing_date_lodged_is_stored_as_invalid_date (w : World) :
  events (snd (parse_search_results Pages.no_date_lodged w)) =
  events w ++
  [InsertRow {| applicationNumber := lit "1/2023";
                address := lit "1 Main St";
                reason := lit "Fence";
                informationUrl := DevelopmentApplicationMainUrl;
                scrapeDate :=
                  Moment.format (Moment.valid (clock (ticks w))) Moment.YYYY_MM_DD;
                receivedDate := lit "Invalid date" |}]
  /\ (forall m, receivedDate_text m = Moment.format m Moment.YYYY_MM_DD)
  /\ receivedDate_text Moment.invalid <> lit "".
Proof.
  split; [|split; [reflexivity | discriminate]].
  rewrite single_header_events by (vm_compute; reflexivity).
  reflexivity.
Qed.

(** C9, as the script has it.  A page with one header "12  Smith   St" and
    the rows Application No.=123/2023, Type of Work=Carport and
    Date Lodged=3/01/2023 gives exactly one row, with number "123/2023",
    address "12 Smith St", reason "Carport" and date received
    "2023-01-03".  With Date Lodged=3/1/2023 the strict pattern does not
    match (the month needs two digits): the date is the invalid moment, and
    still exactly one row is handed over, with the same number, address and
    reason. *)
Theorem smith_st_gives_one_row (w : World) :
  events (snd (parse_search_results Pages.smith_st w)) =
  events w ++
  [InsertRow {| applicationNumber := lit "123/2023";
                address := lit "12 Smith St";
                reason := lit "Carport";
                informationUrl := DevelopmentApplicationMainUrl;
                scrapeDate :=
                  Moment.format (Moment.valid (clock (ticks w))) Moment.YYYY_MM_DD;
                receivedDate := lit "2023-01-03" |}]
  /\ var_receivedDate (read_header (Pages.header_of Pages.smith_st_one_digit_month))
     = Moment.invalid
  /\ exists developmentApplication,
       events (snd (parse_search_results Pages.smith_st_one_digit_month w)) =
       events w ++ [InsertRow developmentApplication]
       /\ applicationNumber developmentApplication = lit "123/2023"
       /\ address developmentApplication = lit "12 Smith St"
       /\ reason developmentApplication = lit "Carport".
Proof.
  split; [|split].
  - rewrite single_header_events by (vm_compute; reflexivity).
    reflexivity.
  - vm_compute; reflexivity.
  - eexists. split.
    + apply single_header_events; vm_compute; reflexivity.
    + repeat split; vm_compute; reflexivity.
Qed.

End Results.

(** C9, as the claim states it, fails: with Date Lodged=3/1/2023 the one
    row handed over does not carry the date received "2023-01-03". *)
Lemma one_digit_month_is_not_parsed :
  map fields_of (inserted (events (snd (Demo.run Pages.smith_st_one_digit_month))))
  = [(lit "123/2023", lit "12 Smith St", lit "Carport", lit "Invalid date")]
  /\ map fields_of (inserted (events (snd (Demo.run Pages.smith_st_one_digit_month))))
     <> [(lit "123/2023", lit "12 Smith St", lit "Carport", lit "2023-01-03")].
Proof. split; [vm_compute; reflexivity | vm_compute; discriminate]. Qed.

(** ** The session *)

Lemma lit_uint_digits u :
  Forall (fun c => Moment.is_digit c = true) (lit (NilEmpty.string_of_uint u)).
Proof.
  induction u; simpl; constructor; auto.
Qed.

Lemma zeroFill_digits n width :
  Forall (fun c => Moment.is_digit c = true) (Moment.zeroFill n width).
Proof.
  unfold Moment.zeroFill. apply Forall_app. split; [|apply lit_uint_digits].
  induction (width - _); simpl; constructor; auto.
Qed.

Lemma digit_below_surrogates c :
  Moment.is_digit c = true -> (c <? 55296)%N = true.
Proof.
  unfold Moment.is_digit. rewrite andb_true_iff, !N.leb_le, N.ltb_lt. lia.
Qed.

Lemma format_DD_MM_YYYY_below_surrogates c :
  Forall (fun ch => (ch <? 55296)%N = true)
         (Moment.format (Moment.valid c) Moment.DD_MM_YYYY).
Proof.
  assert (Hz : forall n width,
             Forall (fun ch => (ch <? 55296)%N = true) (Moment.zeroFill n width)).
  { intros n width. eapply Forall_impl; [|apply zeroFill_digits].
    intros ch. apply digit_below_surrogates. }
  unfold Moment.format, Moment.DD_MM_YYYY.
  apply Forall_concat. cbn [map Moment.format_token].
  repeat constructor; apply Hz.
Qed.

(** No URIError where no surrogate is. *)
Lemma encodeURIComponent_total s :
  Forall (fun ch => (ch <? 55296)%N = true) s ->
  exists s', encodeURIComponent s = Some s'.
Proof.
  induction 1 as [|c r Hc _ [r' IH]]; [now exists []|].
  cbn [encodeURIComponent]. rewrite IH, Hc. cbn [orb option_map].
  destruct (uri_unreserved c); eexists; reflexivity.
Qed.

Lemma nth_set_nth_last {A : Type} (l : list A) (x y d : A) :
  set_nth (length l) y (l ++ [x]) = l ++ [y]
  /\ nth (length l) (l ++ [x]) d = x.
Proof.
  induction l as [|a r [IH1 IH2]]; [split; reflexivity|].
  split; simpl; [now rewrite IH1 | exact IH2].
Qed.

Lemma store_cookies_keeps_name (cs jar : list cookie) (name value : jsstring) :
  In (name, value) jar ->
  exists value', In (name, value') (store_cookies jar cs).
Proof.
  revert jar value. induction cs as [|c r IH]; intros jar value Hin.
  - now exists value.
  - unfold store_cookies. cbn [fold_left]. fold (store_cookies (store_cookie jar c) r).
    unfold store_cookie.
    destruct (JsString.eqb name (fst c)) eqn:E.
    + apply eqb_eq in E. apply (IH _ (snd c)).
      apply in_or_app. right. left. subst name. now destruct c.
    + apply (IH _ value). apply in_or_app. left.
      apply filter_In. split; [exact Hin|]. cbn [fst]. now rewrite E.
Qed.

(** Every cookie set by a response is in the jar afterwards, under its
    name (with the value set last for that name). *)
Lemma store_cookies_has_each (cs jar : list cookie) (c : cookie) :
  In c cs -> exists value, In (fst c, value) (store_cookies jar cs).
Proof.
  revert jar. induction cs as [|c0 r IH]; intros jar; [intros []|].
  intros [->|Hin].
  - unfold store_cookies. cbn [fold_left]. fold (store_cookies (store_cookie jar c) r).
    apply (@store_cookies_keeps_name r _ (fst c) (snd c)).
    unfold store_cookie. apply in_or_app. right. left. now destruct c.
  - unfold store_cookies. cbn [fold_left]. fold (store_cookies (store_cookie jar c0) r).
    now apply IH.
Qed.

Section Session.

Context {platform : Platform}.

(** The two ways a request ends. *)
Lemma request_run (url : jsstring) (jar : nat) (w : World) :
  (exists e w',
      request url jar w = (Rejected (RequestError e), w')
      /\ events w' = events w ++
                     [RequestSent url jar (nth jar (jars w) []); RequestFailed url jar])
  \/ (exists body cs w',
         request url jar w = (Resolved body, w')
         /\ events w' = events w ++
                        [RequestSent url jar (nth jar (jars w) []);
                         ResponseReceived url jar cs]
         /\ jars w' = set_nth jar (store_cookies (nth jar (jars w) []) cs) (jars w)
         /\ ticks w' = ticks w).
Proof.
  unfold request. cbn [emit site jars data ticks events].
  destruct (http_get (site w) url (nth jar (jars w) [])) as [site' [e|[body cs]]].
  - left. eexists _, _. split; [reflexivity|].
    cbn [emit events]. now rewrite <- app_assoc.
  - right. eexists _, _, _. split; [reflexivity|].
    cbn [emit events jars ticks]. now rewrite <- app_assoc.
Qed.

(** [main], one awaited step after the other. *)
Lemma main_steps (w : World) :
  main w =
  match request DevelopmentApplicationMainUrl (length (jars w))
                {| jars := jars w ++ [[]]; site := site w;
                   data := create_table_if_not_exists (data w);
                   ticks := ticks w; events := events w |} with
  | (Rejected e, w2) => (Rejected e, w2)
  | (Resolved _, w2) =>
    match encodeURIComponent
            (Moment.format (Moment.subtract_1_months (Moment.valid (clock (ticks w2))))
                           Moment.DD_MM_YYYY) with
    | None => (Rejected URIError, tick w2)
    | Some dateFrom =>
      match encodeURIComponent
              (Moment.format (Moment.valid (clock (S (ticks w2)))) Moment.DD_MM_YYYY) with
      | None => (Rejected URIError, tick (tick w2))
      | Some dateTo =>
        match request (developmentApplicationSearchUrl dateFrom dateTo)
                      (length (jars w)) (tick (tick w2)) with
        | (Rejected e, w4) => (Rejected e, w4)
        | (Resolved body, w4) => parse_search_results (load body) w4
        end
      end
    end
  end.
Proof.
  unfold main, await, initializeDatabase, request_jar, moment_now,
    encodeURIComponent_or_throw, resolve, throw.
  destruct (request _ _ _) as [[body|e] w2]; [|reflexivity].
  cbn [ticks tick].
  destruct (encodeURIComponent _); [|reflexivity].
  destruct (encodeURIComponent _); reflexivity.
Qed.

(** C8.  In every run the first request goes to the main page, with a jar
    made for the run and still empty.  Only when its response is there is
    the search requested, with the same jar, and the cookies that the main
    page's response put into the jar go out with it: every cookie set by
    that response, under its name.  No other request is made.  (A failed
    first request ends the run before any search.) *)
Theorem search_follows_main_page_with_its_cookies (w : World) :
  (forall (set_cookie : list cookie) (c : cookie),
      In c set_cookie ->
      exists value, In (fst c, value) (store_cookies [] set_cookie))
  /\ (forall c : cookie, store_cookies [] [c] = [c])
  /\ exists new,
    events (snd (main w)) = events w ++ new
    /\ (requests new =
        [RequestSent DevelopmentApplicationMainUrl (length (jars w)) [];
         RequestFailed DevelopmentApplicationMainUrl (length (jars w))]
        \/ exists set_cookie dateFrom dateTo,
             requests new =
             [RequestSent DevelopmentApplicationMainUrl (length (jars w)) [];
              ResponseReceived DevelopmentApplicationMainUrl (length (jars w)) set_cookie;
              RequestSent (developmentApplicationSearchUrl dateFrom dateTo)
                          (length (jars w)) (store_cookies [] set_cookie);
              RequestFailed (developmentApplicationSearchUrl dateFrom dateTo)
                            (length (jars w))]
             \/ exists set_cookie',
                 requests new =
                 [RequestSent DevelopmentApplicationMainUrl (length (jars w)) [];
                  ResponseReceived DevelopmentApplicationMainUrl (length (jars w)) set_cookie;
                  RequestSent (developmentApplicationSearchUrl dateFrom dateTo)
                              (length (jars w)) (store_cookies [] set_cookie);
                  ResponseReceived (developmentApplicationSearchUrl dateFrom dateTo)
                                   (length (jars w)) set_cookie']).
Proof.
  split; [intros cs c; apply store_cookies_has_each|].
  split; [reflexivity|].
  rewrite main_steps.
  set (w1 := Build_World (jars w ++ [[]]) _ _ _ _).
  destruct (nth_set_nth_last (jars w) [] (store_cookies [] []) []) as [_ Hnth].
  destruct (request_run DevelopmentApplicationMainUrl (length (jars w)) w1)
    as [(e & w2 & Hrun & Hev)|(body & cs & w2 & Hrun & Hev & Hjars & _)];
    rewrite Hrun; cbn [jars events w1] in Hev; rewrite Hnth in Hev.
  - exists [RequestSent DevelopmentApplicationMainUrl (length (jars w)) [];
            RequestFailed DevelopmentApplicationMainUrl (length (jars w))].
    split; [exact Hev | left; reflexivity].
  - cbn [jars w1] in Hjars. rewrite Hnth in Hjars.
    destruct (nth_set_nth_last (jars w) [] (store_cookies [] cs) []) as [Hset _].
    rewrite Hset in Hjars. clear Hset Hnth.
    cbn [Moment.subtract_1_months].
    match goal with |- context [Moment.format (Moment.valid ?c) Moment.DD_MM_YYYY] =>
      destruct (encodeURIComponent_total (format_DD_MM_YYYY_below_surrogates c))
        as [dateFrom ->]
    end.
    match goal with |- context [Moment.format (Moment.valid ?c) Moment.DD_MM_YYYY] =>
      destruct (encodeURIComponent_total (format_DD_MM_YYYY_below_surrogates c))
        as [dateTo ->]
    end.
    destruct (nth_set_nth_last (jars w) (store_cookies [] cs) [] [])
      as [_ Hnth3].
    destruct (request_run (developmentApplicationSearchUrl dateFrom dateTo)
                          (length (jars w)) (tick (tick w2)))
      as [(e & w4 & Hrun4 & Hev4)|(body' & cs' & w4 & Hrun4 & Hev4 & _ & _)];
      rewrite Hrun4; cbn [jars events tick] in Hev4;
      rewrite Hjars, Hnth3, Hev, <- app_assoc in Hev4.
    + eexists. split; [exact Hev4|]. right. eexists _, _, _. left. reflexivity.
    + destruct (for_each_parse_header
                  (Cheerio.select (load body') h4_non_table_headers) w4)
        as (processed & skipped & new & _ & Hnew & Hreq & _ & _).
      unfold parse_search_results. rewrite Hnew, Hev4, <- app_assoc.
      eexists. split; [reflexivity|].
      right. eexists _, _, _. right. eexists.
      rewrite requests_app, Hreq. reflexivity.
Qed.

End Session.

(* ===================================================================== *)
(** * Further properties of the script *)
(* ===================================================================== *)

(** ** The address *)

Lemma non_space_drop_while s :
  non_space_part (drop_while is_space s) = non_space_part s.
Proof.
  induction s as [|c r IH]; [reflexivity|]. simpl.
  destruct (is_space c) eqn:E; simpl; [exact IH | now rewrite E].
Qed.

Lemma non_space_collapse s : non_space_part (collapse s) = non_space_part s.
Proof.
  pattern s. apply jsstring_length_ind. clear s. intros s IH.
  destruct s as [|c r]; [now rewrite collapse_nil|].
  rewrite collapse_cons.
  destruct (is_space c && starts_with_space r) eqn:E.
  - apply andb_prop in E as [Ec _].
    unfold non_space_part at 1 2. cbn [filter]. rewrite Ec.
    change (is_space SPACE) with true. cbn [negb].
    fold (non_space_part (collapse (drop_while is_space r))).
    fold (non_space_part r).
    rewrite IH by (simpl; pose proof (length_drop_while is_space r); lia).
    apply non_space_drop_while.
  - unfold non_space_part at 1 2. cbn [filter].
    fold (non_space_part (collapse r)). fold (non_space_part r).
    rewrite IH by (simpl; lia). reflexivity.
Qed.

Lemma non_space_trim s : non_space_part (trim s) = non_space_part s.
Proof.
  unfold trim, trim_end, trim_start, non_space_part.
  rewrite filter_rev. fold (non_space_part (drop_while is_space (rev (drop_while is_space s)))).
  rewrite non_space_drop_while. unfold non_space_part.
  rewrite filter_rev, rev_involutive.
  apply non_space_drop_while.
Qed.

Lemma length_collapse s : length (collapse s) <= length s.
Proof.
  pattern s. apply jsstring_length_ind. clear s. intros s IH.
  destruct s as [|c r]; [now rewrite collapse_nil|].
  rewrite collapse_cons.
  destruct (is_space c && starts_with_space r).
  - pose proof (length_drop_while is_space r) as Hd.
    assert (H := IH (drop_while is_space r)). simpl in *. lia.
  - assert (H := IH r). simpl in *. lia.
Qed.

Lemma length_trim s : length (trim s) <= length s.
Proof.
  unfold trim, trim_end, trim_start. rewrite length_rev.
  pose proof (length_drop_while is_space (rev (drop_while is_space s))) as H1.
  pose proof (length_drop_while is_space s) as H2.
  rewrite length_rev in H1. lia.
Qed.

(** X1.  The expression of line 85 only ever removes or replaces white
    space: the characters of the header's text that are not white space are
    all kept, in their order, and the result is never longer than the
    text. *)
Theorem normalizeWhitespace_keeps_the_text (s : jsstring) :
  non_space_part (normalizeWhitespace s) = non_space_part s
  /\ length (normalizeWhitespace s) <= length s.
Proof.
  unfold normalizeWhitespace. split.
  - now rewrite non_space_collapse, non_space_trim.
  - pose proof (length_collapse (trim s)). pose proof (length_trim s). lia.
Qed.

Lemma non_space_nil_all s : non_space_part s = [] -> forallb is_space s = true.
Proof.
  induction s as [|c r IH]; [reflexivity|]. simpl.
  destruct (is_space c); simpl; [exact IH | discriminate].
Qed.

Lemma normalizeWhitespace_all_space s :
  forallb is_space s = true -> normalizeWhitespace s = [].
Proof.
  intros H. unfold normalizeWhitespace, trim, trim_start.
  rewrite (drop_while_all_space _ H). apply collapse_nil.
Qed.

(** X2.  The address of line 85 is the empty string exactly when the text
    of the header consists of white space only (the empty text
    included). *)
Theorem normalizeWhitespace_empty_iff (s : jsstring) :
  normalizeWhitespace s = [] <-> forallb is_space s = true.
Proof.
  split; [|apply normalizeWhitespace_all_space].
  intros H. apply non_space_nil_all.
  rewrite <- (non_space_trim s), <- (non_space_collapse (trim s)).
  fold (normalizeWhitespace s). now rewrite H.
Qed.

(** ** The rows of a header, continued *)

Lemma fold_left_flat_map {A B C : Type} (f : A -> C -> A) (g : B -> list C)
      (l : list B) (a : A) :
  fold_left f (flat_map g l) a = fold_left (fun a b => fold_left f (g b) a) l a.
Proof.
  revert a. induction l as [|b r IH]; intros a; [reflexivity|].
  simpl. now rewrite fold_left_app, IH.
Qed.

(** The two loops of lines 90 and 91 are one pass over [rows_of]. *)
Lemma read_header_rows headerElement :
  read_header headerElement =
  fold_left read_row (rows_of headerElement) initial_variables.
Proof.
  unfold read_header, rows_of. now rewrite fold_left_flat_map.
Qed.

Lemma known_label_false key :
  known_label key = false ->
  key <> lit "Type of Work" /\ key <> lit "Application No." /\ key <> lit "Date Lodged".
Proof.
  unfold known_label. intros H.
  apply orb_false_elim in H as [H H3]. apply orb_false_elim in H as [H1 H2].
  now rewrite <- !eqb_neq.
Qed.

Lemma rows_without_unknown rows vars :
  fold_left read_row rows vars =
  fold_left read_row (filter (fun p => known_label (key_of p)) rows) vars.
Proof.
  revert vars. induction rows as [|p r IH]; intros vars; [reflexivity|].
  cbn [fold_left filter]. destruct (known_label (key_of p)) eqn:E.
  - cbn [fold_left]. apply IH.
  - apply known_label_false in E as (H1 & H2 & H3).
    rewrite (assign_unknown vars (value_of p) H1 H2 H3). apply IH.
Qed.

(** X3.  Rows under other keys than the three labels can stand anywhere
    among the rows of a header without any effect: the variables are the
    same as if only the rows with a known label had been read. *)
Theorem rows_with_other_keys_change_nothing (headerElement : Cheerio.element) :
  read_header headerElement =
  fold_left
    (fun vars paragraphElement =>
       assign vars (key_of paragraphElement) (value_of paragraphElement))
    (filter (fun paragraphElement => known_label (key_of paragraphElement))
            (rows_of headerElement))
    initial_variables.
Proof.
  rewrite read_header_rows. apply rows_without_unknown.
Qed.

Lemma rows_keep_trimmed rows vars :
  starts_with_space (var_applicationNumber vars) = false ->
  ends_with_space (var_applicationNumber vars) = false ->
  starts_with_space (var_reason vars) = false ->
  ends_with_space (var_reason vars) = false ->
  let vars' := fold_left read_row rows vars in
  starts_with_space (var_applicationNumber vars') = false
  /\ ends_with_space (var_applicationNumber vars') = false
  /\ starts_with_space (var_reason vars') = false
  /\ ends_with_space (var_reason vars') = false.
Proof.
  revert vars. induction rows as [|p r IH]; intros vars H1 H2 H3 H4; [now cbn|].
  cbn [fold_left]. apply IH; unfold assign;
    destruct (JsString.eqb (key_of p) (lit "Type of Work"));
    [| destruct (JsString.eqb (key_of p) (lit "Application No."));
       [| destruct (JsString.eqb (key_of p) (lit "Date Lodged"))] ..];
    cbn [var_applicationNumber var_reason]; trivial;
    unfold value_of; first [apply starts_trim | apply ends_trim].
Qed.

(** X4.  Whatever the page holds, the application number and the reason
    read for a header neither begin nor end with white space: each is
    either empty or the trimmed text of a row's value. *)
Theorem number_and_reason_are_trimmed (headerElement : Cheerio.element) :
  starts_with_space (var_applicationNumber (read_header headerElement)) = false
  /\ ends_with_space (var_applicationNumber (read_header headerElement)) = false
  /\ starts_with_space (var_reason (read_header headerElement)) = false
  /\ ends_with_space (var_reason (read_header headerElement)) = false.
Proof.
  rewrite read_header_rows. now apply rows_keep_trimmed.
Qed.

Lemma has_label_false headerElement label :
  has_label headerElement label = false ->
  Forall (fun q => key_of q <> label) (rows_of headerElement).
Proof.
  unfold has_label. generalize (rows_of headerElement). intros rows.
  induction rows as [|p r IH]; [constructor|].
  cbn [existsb]. intros H. apply orb_false_elim in H as [H1 H2].
  constructor; [now apply eqb_neq | now apply IH].
Qed.

(** X5.  A label that no row of the header has leaves its variable as it
    was declared: the reason and the application number the empty string,
    the date received the invalid moment. *)
Theorem absent_label_keeps_default (headerElement : Cheerio.element) :
  (has_label headerElement (lit "Type of Work") = false ->
   var_reason (read_header headerElement) = lit "")
  /\ (has_label headerElement (lit "Application No.") = false ->
      var_applicationNumber (read_header headerElement) = lit "")
  /\ (has_label headerElement (lit "Date Lodged") = false ->
      var_receivedDate (read_header headerElement) = Moment.invalid).
Proof.
  rewrite read_header_rows. repeat split; intros H; apply has_label_false in H.
  - now rewrite rows_keep_reason.
  - now rewrite rows_keep_number.
  - now rewrite rows_keep_date.
Qed.

Lemma absent_label_keeps_default_witness :
  var_applicationNumber (read_header (Pages.header_of Pages.two_blocks)) = lit ""
  /\ var_receivedDate (read_header (Pages.header_of Pages.no_date_lodged)) = Moment.invalid.
Proof.
  split.
  - apply (proj1 (proj2 (absent_label_keeps_default (Pages.header_of Pages.two_blocks)))).
    vm_compute; reflexivity.
  - apply (proj2 (proj2 (absent_label_keeps_default (Pages.header_of Pages.no_date_lodged)))).
    vm_compute; reflexivity.
Defined.

Section Dropped.

Context {platform : Platform}.

Lemma parse_header_not_qualified (headerElement : Cheerio.element) (w : World) :
  qualifies headerElement = false -> parse_header headerElement w = (Resolved tt, w).
Proof.
  unfold qualifies, parse_header. now intros ->.
Qed.

(** X6.  A header without an "Application No." row, and a header whose
    text is white space only, are passed over without a trace: no row is
    handed to [insertRow], the clock is not read, and the world is the same
    as before. *)
Theorem header_without_number_or_text_is_passed_over
  (headerElement : Cheerio.element) (w : World)
  (H : has_label headerElement (lit "Application No.") = false
       \/ forallb is_space (Cheerio.text [headerElement]) = true) :
  parse_header headerElement w = (Resolved tt, w).
Proof.
  apply parse_header_not_qualified. unfold qualifies, has_number_and_address.
  destruct H as [H|H].
  - apply has_label_false in H.
    rewrite read_header_rows, rows_keep_number by exact H. reflexivity.
  - unfold address_of. rewrite (normalizeWhitespace_all_space _ H).
    apply andb_false_r.
Qed.

(** X7.  When no header of the page passes the test of line 105 (a page
    without any header is the plainest case), the loop ends resolved and
    has changed nothing. *)
Theorem page_without_qualifying_header_changes_nothing
  (document : list Cheerio.node) (w : World)
  (H : forallb (fun h => negb (qualifies h))
               (Cheerio.select document h4_non_table_headers) = true) :
  parse_search_results document w = (Resolved tt, w).
Proof.
  unfold parse_search_results. revert H.
  generalize (Cheerio.select document h4_non_table_headers). intros hs.
  induction hs as [|h r IH]; [reflexivity|].
  cbn [forallb]. intros H. apply andb_prop in H as [Hh Hr].
  apply negb_true_iff in Hh.
  rewrite for_each_cons, (parse_header_not_qualified h w Hh). now apply IH.
Qed.

End Dropped.

Lemma header_without_number_or_text_is_passed_over_witness :
  @parse_header (Demo.platform []) (Pages.header_of Pages.two_blocks) (Demo.start [])
  = (Resolved tt, Demo.start [])
  /\ @parse_header (Demo.platform [])
       {| Cheerio.self := Pages.h4 [SPACE; TAB]; Cheerio.siblings_after := [] |}
       (Demo.start [])
     = (Resolved tt, Demo.start []).
Proof.
  split.
  - apply header_without_number_or_text_is_passed_over. left. vm_compute; reflexivity.
  - apply header_without_number_or_text_is_passed_over. right. vm_compute; reflexivity.
Defined.

Lemma page_without_qualifying_header_changes_nothing_witness :
  @parse_search_results (Demo.platform []) Pages.two_blocks (Demo.start [])
  = (Resolved tt, Demo.start []).
Proof.
  apply page_without_qualifying_header_changes_nothing. vm_compute; reflexivity.
Defined.

(** ** The rows and the database *)

Section Rows.

Context {platform : Platform}.

Lemma parse_header_qualified (headerElement : Cheerio.element) (w : World) :
  qualifies headerElement = true ->
  parse_header headerElement w =
  insertRow (developmentApplication_of (address_of headerElement)
                                       (read_header headerElement)
                                       (Moment.valid (clock (ticks w))))
            (tick w).
Proof.
  unfold qualifies, parse_header. now intros ->.
Qed.

(** The loop of line 84, as a whole: the headers it reaches, the rows it
    hands over, the database it leaves and how it ends. *)
Lemma for_each_parse_header_rows (hs : list Cheerio.element) (w : World) :
  exists processed skipped new o,
    hs = processed ++ skipped
    /\ events (snd (for_each hs parse_header w)) = events w ++ new
    /\ new = map InsertRow (rows_at (ticks w) (filter qualifies processed))
    /\ insert_rows (data w) (inserted new) = (data (snd (for_each hs parse_header w)), o)
    /\ fst (for_each hs parse_header w)
       = match o with
         | None => Resolved tt
         | Some e => Rejected (SqliteError e)
         end
    /\ (o = None -> skipped = [])
    /\ jars (snd (for_each hs parse_header w)) = jars w
    /\ site (snd (for_each hs parse_header w)) = site w
    /\ ticks (snd (for_each hs parse_header w)) = ticks w + length new.
Proof.
  revert w. induction hs as [|h rest IH]; intros w.
  - exists [], [], [], None. cbn. rewrite app_nil_r. repeat split. lia.
  - rewrite for_each_cons. destruct (qualifies h) eqn:Hq.
    + rewrite (parse_header_qualified h w Hq). unfold insertRow.
      cbn [data emit tick].
      destruct (insert_or_replace (data w) _) as [e|db'] eqn:Hins.
      * exists [h], rest, [InsertRow (developmentApplication_of (address_of h)
                             (read_header h) (Moment.valid (clock (ticks w))))], (Some e).
        cbn [filter app]. rewrite Hq. cbn [rows_at map inserted insert_rows].
        rewrite Hins. cbn. repeat split; try discriminate. lia.
      * match goal with |- context [for_each rest parse_header ?w1] =>
          destruct (IH w1)
            as (processed & skipped & new & o & H1 & H2 & H3 & H4 & H5 & H6 & H7 & H8 & H9)
        end.
        cbn [events jars site data ticks emit tick] in *.
        exists (h :: processed), skipped,
               (InsertRow (developmentApplication_of (address_of h)
                             (read_header h) (Moment.valid (clock (ticks w)))) :: new), o.
        cbn [filter app]. rewrite Hq. cbn [rows_at map inserted insert_rows].
        rewrite Hins.
        split; [now rewrite H1|]. split; [rewrite H2, <- app_assoc; reflexivity|].
        split; [now rewrite H3|]. split; [exact H4|]. split; [exact H5|].
        split; [exact H6|]. split; [exact H7|]. split; [exact H8|].
        rewrite H9. cbn [length]. lia.
    + rewrite (parse_header_not_qualified h w Hq).
      destruct (IH w)
        as (processed & skipped & new & o & H1 & H2 & H3 & H4 & H5 & H6 & H7 & H8 & H9).
      exists (h :: processed), skipped, new, o.
      cbn [filter app]. rewrite Hq.
      split; [now rewrite H1|]. repeat split; assumption.
Qed.

Lemma rows_at_informationUrl t hs :
  Forall (fun r => informationUrl r = DevelopmentApplicationMainUrl) (rows_at t hs).
Proof.
  revert t. induction hs as [|h r IH]; intros t; constructor; [reflexivity | apply IH].
Qed.

Lemma rows_at_scrapeDate t hs :
  map scrapeDate (rows_at t hs) =
  map (fun t' => Moment.format (Moment.valid (clock t')) Moment.YYYY_MM_DD)
      (seq t (length hs)).
Proof.
  revert t. induction hs as [|h r IH]; intros t; [reflexivity|].
  cbn [rows_at map length seq]. now rewrite IH.
Qed.

Lemma length_rows_at t hs : length (rows_at t hs) = length hs.
Proof.
  revert t. induction hs as [|h r IH]; intros t; [reflexivity|].
  cbn. now rewrite IH.
Qed.

Lemma inserted_map_InsertRow rows : inserted (map InsertRow rows) = rows.
Proof. induction rows as [|r rest IH]; [reflexivity|]. cbn. now rewrite IH. Qed.

(** X8.  Every row handed to [insertRow] names the main page as its
    information URL, and its scrape date is a reading of the clock taken
    for that row alone: the rows carry consecutive readings, in the order
    they are handed over, and the clock is read for nothing else in the
    loop. *)
Theorem rows_carry_main_url_and_clock_readings
  (document : list Cheerio.node) (w : World) :
  exists new,
    events (snd (parse_search_results document w)) = events w ++ new
    /\ Forall (fun r => informationUrl r = DevelopmentApplicationMainUrl) (inserted new)
    /\ map scrapeDate (inserted new) =
       map (fun t => Moment.format (Moment.valid (clock t)) Moment.YYYY_MM_DD)
           (seq (ticks w) (length (inserted new)))
    /\ ticks (snd (parse_search_results document w)) = ticks w + length (inserted new).
Proof.
  unfold parse_search_results.
  destruct (for_each_parse_header_rows (Cheerio.select document h4_non_table_headers) w)
    as (processed & skipped & new & o & _ & H2 & H3 & _ & _ & _ & _ & _ & H9).
  exists new. split; [exact H2|]. subst new.
  rewrite inserted_map_InsertRow. rewrite length_map in H9.
  split; [apply rows_at_informationUrl|]. split; [|exact H9].
  rewrite rows_at_scrapeDate, length_rows_at. reflexivity.
Qed.

(** X9.  The loop changes the database through the rows it hands over and
    through nothing else: the database it leaves is the one reached by
    inserting those rows in their order.  It ends resolved when every insert
    was accepted, and rejected with the error of sqlite at the first insert
    that was not, which is then the last row handed over.  Cookie jars and
    site are as before. *)
Theorem loop_writes_only_its_rows (document : list Cheerio.node) (w : World) :
  exists new o,
    events (snd (parse_search_results document w)) = events w ++ new
    /\ insert_rows (data w) (inserted new)
       = (data (snd (parse_search_results document w)), o)
    /\ fst (parse_search_results document w)
       = match o with
         | None => Resolved tt
         | Some e => Rejected (SqliteError e)
         end
    /\ jars (snd (parse_search_results document w)) = jars w
    /\ site (snd (parse_search_results document w)) = site w.
Proof.
  unfold parse_search_results.
  destruct (for_each_parse_header_rows (Cheerio.select document h4_non_table_headers) w)
    as (processed & skipped & new & o & _ & H2 & _ & H4 & H5 & _ & H7 & H8 & _).
  exists new, o. auto.
Qed.

End Rows.

(** ** Which headers are forwarded *)

Section Forwarded.

Context {platform : Platform}.

Lemma fields_of_rows_at t hs : map fields_of (rows_at t hs) = map candidate hs.
Proof.
  revert t. induction hs as [|h r IH]; intros t; [reflexivity|].
  cbn [rows_at map]. now rewrite IH.
Qed.

Lemma candidate_filter hs :
  map candidate (filter qualifies hs) =
  filter (fun c => has_number_and_address (number_of c) (address_in c))
         (map candidate hs).
Proof.
  induction hs as [|h r IH]; [reflexivity|].
  cbn [filter map].
  change (has_number_and_address (number_of (candidate h)) (address_in (candidate h)))
    with (qualifies h).
  destruct (qualifies h); cbn [map]; now rewrite IH.
Qed.

Lemma handed_over_all db rows :
  snd (insert_rows db rows) = None -> handed_over db rows = rows.
Proof.
  revert db. induction rows as [|r rest IH]; intros db; [reflexivity|].
  cbn [insert_rows handed_over].
  destruct (insert_or_replace db r) as [e|db']; [discriminate|].
  intros H. now rewrite IH.
Qed.

(** The loop of line 84, event by event. *)
Lemma for_each_parse_header_exact (hs : list Cheerio.element) (w : World) :
  events (snd (for_each hs parse_header w)) =
  events w ++
  map InsertRow (handed_over (data w) (rows_at (ticks w) (filter qualifies hs)))
  /\ fst (for_each hs parse_header w) =
     match snd (insert_rows (data w) (rows_at (ticks w) (filter qualifies hs))) with
     | None => Resolved tt
     | Some e => Rejected (SqliteError e)
     end.
Proof.
  revert w. induction hs as [|h rest IH]; intros w.
  - cbn. now rewrite app_nil_r.
  - rewrite for_each_cons. cbn [filter]. destruct (qualifies h) eqn:Hq.
    + rewrite (parse_header_qualified h w Hq). unfold insertRow.
      cbn [data emit tick rows_at handed_over insert_rows].
      destruct (insert_or_replace (data w) _) as [e|db'].
      * cbn [snd fst events map]. split; reflexivity.
      * match goal with |- context [for_each rest parse_header ?w1] =>
          destruct (IH w1) as [H1 H2]
        end.
        cbn [events data ticks] in H1, H2.
        rewrite H1, H2. cbn [map events ticks emit tick]. now rewrite <- app_assoc.
    + rewrite (parse_header_not_qualified h w Hq). apply IH.
Qed.

(** C2, as the script has it.  The headers are taken in document order.  A
    header is handed to [insertRow] exactly when both its application number
    and its address are not empty; a header with an empty number or an empty
    address leaves no event at all, and the reason and the date received
    take no part in the test.  This holds for every header as long as each
    insert is accepted; the first rejected insert ends the run with the
    error of sqlite, and the headers behind it are not handed over. *)
Theorem forwarded_iff_number_and_address_until_rejected
  (document : list Cheerio.node) (w : World) :
  (forall a b : jsstring, has_number_and_address a b = true <-> a <> [] /\ b <> [])
  /\ map fields_of
         (rows_at (ticks w)
                  (filter qualifies (Cheerio.select document h4_non_table_headers)))
     = filter (fun c => has_number_and_address (number_of c) (address_in c))
              (map candidate (Cheerio.select document h4_non_table_headers))
  /\ events (snd (parse_search_results document w)) =
     events w ++
     map InsertRow
         (handed_over (data w)
            (rows_at (ticks w)
               (filter qualifies (Cheerio.select document h4_non_table_headers))))
  /\ fst (parse_search_results document w) =
     match snd (insert_rows (data w)
                  (rows_at (ticks w)
                     (filter qualifies
                        (Cheerio.select document h4_non_table_headers)))) with
     | None => Resolved tt
     | Some e => Rejected (SqliteError e)
     end
  /\ (fst (parse_search_results document w) = Resolved tt ->
      map fields_of (inserted (skipn (length (events w))
                                     (events (snd (parse_search_results document w)))))
      = filter (fun c => has_number_and_address (number_of c) (address_in c))
               (map candidate (Cheerio.select document h4_non_table_headers))).
Proof.
  unfold parse_search_results.
  destruct (for_each_parse_header_exact
              (Cheerio.select document h4_non_table_headers) w) as [Hev Hout].
  split; [exact has_number_and_address_iff|].
  split; [now rewrite fields_of_rows_at, candidate_filter|].
  split; [exact Hev|]. split; [exact Hout|].
  intros Hres. rewrite Hev, skipn_app, skipn_all, Nat.sub_diag.
  cbn [skipn app]. rewrite inserted_map_InsertRow.
  rewrite Hout in Hres.
  destruct (snd (insert_rows _ _)) eqn:Hins; [discriminate|].
  rewrite (handed_over_all _ _ Hins).
  now rewrite fields_of_rows_at, candidate_filter.
Qed.

End Forwarded.

(** C2, as the claim states it, fails: both headers of the page have a
    number and an address, the database rejects the first insert, and the
    second header is not handed over. *)
Lemma second_candidate_is_not_forwarded_behind_a_rejected_insert :
  filter (fun c => has_number_and_address (number_of c) (address_in c))
         (map candidate (Cheerio.select MorePages.two_headers h4_non_table_headers))
  = [(lit "1/2023", lit "1 Main St", lit "Fence", lit "Invalid date");
     (lit "2/2023", lit "2 Main St", lit "Shed", lit "Invalid date")]
  /\ map fields_of
         (inserted (events (snd (@main (MorePages.full_platform MorePages.two_headers)
                                       (MorePages.full_start MorePages.two_headers)))))
     = [(lit "1/2023", lit "1 Main St", lit "Fence", lit "Invalid date")].
Proof. split; vm_compute; reflexivity. Qed.

(** ** The address of the search *)

Lemma starts_with_self pat s : starts_with pat (pat ++ s) = true.
Proof.
  induction pat as [|c r IH]; [reflexivity|].
  cbn. now rewrite N.eqb_refl, IH.
Qed.

Lemma skipn_length_app {A : Type} (l r : list A) : skipn (length l) (l ++ r) = r.
Proof. induction l as [|a l IH]; [reflexivity | exact IH]. Qed.

(** Where the pattern stands, the replacement is put. *)
Lemma replace_literal_hit pat replacement s :
  pat <> [] ->
  replace (re_literal pat) replacement (pat ++ s) =
  replacement ++ replace (re_literal pat) replacement s.
Proof.
  destruct pat as [|c pat']; [congruence|]. intros _.
  change ((c :: pat') ++ s) with (c :: (pat' ++ s)).
  rewrite replace_cons. unfold re_literal.
  change (c :: (pat' ++ s)) with ((c :: pat') ++ s).
  rewrite starts_with_self. cbn [length].
  now rewrite skipn_length_app.
Qed.

(** Text without the first character of the pattern is copied. *)
Lemma replace_literal_skip c pat' replacement p s :
  forallb (fun x => negb (x =? c)%N) p = true ->
  replace (re_literal (c :: pat')) replacement (p ++ s) =
  p ++ replace (re_literal (c :: pat')) replacement s.
Proof.
  induction p as [|x r IH]; [reflexivity|].
  cbn [forallb]. intros H. apply andb_prop in H as [Hx Hr].
  change ((x :: r) ++ s) with (x :: (r ++ s)).
  rewrite replace_cons. unfold re_literal at 1. cbn [starts_with].
  apply negb_true_iff in Hx. rewrite N.eqb_sym in Hx. rewrite Hx. cbn [andb].
  cbn [app]. now rewrite IH.
Qed.

Lemma replace_nil matcher replacement : replace matcher replacement [] = [].
Proof. now simp replace. Qed.

Lemma GetSubstitution_plain matched before after replacement :
  forallb (fun c => negb (c =? 36)%N) replacement = true ->
  GetSubstitution matched before after replacement = replacement.
Proof.
  induction replacement as [|c r IH]; [reflexivity|].
  cbn [forallb]. intros H. apply andb_prop in H as [Hc Hr].
  apply negb_true_iff in Hc. cbn [GetSubstitution]. rewrite Hc. now rewrite IH.
Qed.

Lemma replace_scan_cons matcher replacement before c rest :
  replace_scan matcher replacement before (c :: rest) =
  match matcher (c :: rest) with
  | 0 => c :: replace_scan matcher replacement (before ++ [c]) rest
  | S n => GetSubstitution (c :: firstn n rest) before (skipn n rest) replacement
           ++ replace_scan matcher replacement (before ++ c :: firstn n rest)
                           (skipn n rest)
  end.
Proof.
  simp replace_scan. destruct (matcher (c :: rest)); reflexivity.
Qed.

(** A replacement text without a dollar sign is put in as it is. *)
Lemma replace_patterns_plain matcher replacement s :
  forallb (fun c => negb (c =? 36)%N) replacement = true ->
  replace_patterns matcher replacement s = replace matcher replacement s.
Proof.
  intros H. unfold replace_patterns. generalize (@nil char16) as before.
  pattern s. apply jsstring_length_ind. clear s. intros s IH before.
  destruct s as [|c rest]; [now simp replace_scan replace|].
  rewrite replace_scan_cons, replace_cons.
  destruct (matcher (c :: rest)) as [|n].
  - f_equal. apply IH. simpl. lia.
  - rewrite (@GetSubstitution_plain _ _ _ _ H). f_equal.
    apply IH. simpl. pose proof (length_skipn n rest). lia.
Qed.

Lemma search_url_pieces :
  DevelopmentApplicationSearchUrl =
  search_url_before ++ lit "{0}" ++ search_url_between ++ lit "{1}" ++ search_url_after.
Proof. vm_compute; reflexivity. Qed.

Lemma developmentApplicationSearchUrl_filled
  (dateFrom dateTo : jsstring)
  (H : forallb (fun c => negb (c =? 123)%N) dateFrom = true)
  (HdateFrom : forallb (fun c => negb (c =? 36)%N) dateFrom = true)
  (HdateTo : forallb (fun c => negb (c =? 36)%N) dateTo = true) :
  developmentApplicationSearchUrl dateFrom dateTo =
  search_url_before ++ dateFrom ++ search_url_between ++ dateTo ++ search_url_after.
Proof.
  unfold developmentApplicationSearchUrl.
  rewrite !replace_patterns_plain by assumption.
  rewrite search_url_pieces.
  assert (H0 : replace (re_literal (lit "{0}")) dateFrom
                 (search_url_before ++ lit "{0}" ++ search_url_between
                  ++ lit "{1}" ++ search_url_after)
               = search_url_before ++ dateFrom ++ search_url_between
                 ++ lit "{1}" ++ search_url_after).
  { rewrite (@replace_literal_skip 123%N (lit "0}")) by (vm_compute; reflexivity).
    apply f_equal.
    rewrite (@replace_literal_hit (lit "{0}")) by discriminate.
    apply f_equal.
    rewrite (@replace_literal_skip 123%N (lit "0}")) by (vm_compute; reflexivity).
    apply f_equal.
    change (lit "{1}" ++ search_url_after) with (123%N :: (lit "1}" ++ search_url_after)).
    rewrite replace_cons.
    change (re_literal (lit "{0}") (123%N :: lit "1}" ++ search_url_after)) with 0.
    apply f_equal.
    rewrite <- (app_nil_r (lit "1}" ++ search_url_after)) at 1.
    rewrite (@replace_literal_skip 123%N (lit "0}")) by (vm_compute; reflexivity).
    now rewrite replace_nil, app_nil_r. }
  rewrite H0.
  rewrite (@replace_literal_skip 123%N (lit "1}")) by (vm_compute; reflexivity).
  apply f_equal.
  rewrite (@replace_literal_skip 123%N (lit "1}")) by exact H.
  apply f_equal.
  rewrite (@replace_literal_skip 123%N (lit "1}")) by (vm_compute; reflexivity).
  apply f_equal.
  rewrite (@replace_literal_hit (lit "{1}")) by discriminate.
  apply f_equal.
  rewrite <- (app_nil_r search_url_after) at 1.
  rewrite (@replace_literal_skip 123%N (lit "1}")) by (vm_compute; reflexivity).
  now rewrite replace_nil, app_nil_r.
Qed.


(** X10.  Line 77 puts the two dates into the search address, each at its
    place and nothing else changed, provided neither date holds a dollar
    sign (which [replace] reads as the start of a pattern such as [$&]) and
    the first date holds no opening brace (which would let the second
    replacement act inside it).  A date that went through
    [encodeURIComponent] holds neither. *)
Theorem search_url_holds_both_dates
  (dateFrom dateTo : jsstring)
  (H : forallb (fun c => negb (c =? 123)%N) dateFrom = true)
  (HdateFrom : forallb (fun c => negb (c =? 36)%N) dateFrom = true)
  (HdateTo : forallb (fun c => negb (c =? 36)%N) dateTo = true) :
  developmentApplicationSearchUrl dateFrom dateTo =
  search_url_before ++ dateFrom ++ search_url_between ++ dateTo ++ search_url_after.
Proof.
  now apply developmentApplicationSearchUrl_filled.
Qed.

Lemma search_url_holds_both_dates_witness :
  developmentApplicationSearchUrl (lit "05%2F07%2F2018") (lit "05%2F08%2F2018") =
  search_url_before ++ lit "05%2F07%2F2018" ++ search_url_between
  ++ lit "05%2F08%2F2018" ++ search_url_after.
Proof.
  apply search_url_holds_both_dates; vm_compute; reflexivity.
Defined.

(** With a dollar sign the replacement is read as a pattern: the date "$&"
    stands for the matched text, and the place for the date stays as it
    was. *)
Example search_url_with_dollar_pattern :
  developmentApplicationSearchUrl [36%N; 38%N] (lit "05%2F08%2F2018") =
  search_url_before ++ lit "{0}" ++ search_url_between
  ++ lit "05%2F08%2F2018" ++ search_url_after.
Proof. vm_compute; reflexivity. Qed.

Lemma encodeURIComponent_digits ds rest :
  Forall (fun c => Moment.is_digit c = true) ds ->
  encodeURIComponent (ds ++ rest) = option_map (app ds) (encodeURIComponent rest).
Proof.
  induction 1 as [|c r Hc _ IH];
    [cbn [app]; now destruct (encodeURIComponent rest)|].
  cbn [app encodeURIComponent].
  assert (Hu : uri_unreserved c = true).
  { unfold uri_unreserved. unfold Moment.is_digit in Hc. now rewrite Hc. }
  rewrite Hu, IH. now destruct (encodeURIComponent rest).
Qed.

Lemma encodeURIComponent_slash rest :
  encodeURIComponent (47%N :: rest) =
  option_map (app (lit "%2F")) (encodeURIComponent rest).
Proof. reflexivity. Qed.

(** A formatted day goes through [encodeURIComponent] with its digits kept
    and each slash written %2F. *)
Lemma encodeURIComponent_date c :
  encodeURIComponent (Moment.format (Moment.valid c) Moment.DD_MM_YYYY)
  = Some (encoded_date c).
Proof.
  unfold Moment.format, Moment.DD_MM_YYYY, encoded_date.
  cbn [map concat Moment.format_token]. rewrite app_nil_r.
  rewrite encodeURIComponent_digits by apply zeroFill_digits.
  change ([47%N] ++ ?x) with (47%N :: x). rewrite encodeURIComponent_slash.
  rewrite encodeURIComponent_digits by apply zeroFill_digits.
  change ([47%N] ++ ?x) with (47%N :: x). rewrite encodeURIComponent_slash.
  rewrite <- (app_nil_r (Moment.zeroFill (Moment.year c) 4)) at 1.
  rewrite encodeURIComponent_digits by apply zeroFill_digits.
  cbn [encodeURIComponent option_map]. now rewrite app_nil_r.
Qed.

Lemma encoded_date_no_brace c :
  forallb (fun x => negb (x =? 123)%N) (encoded_date c) = true.
Proof.
  assert (Hz : forall n width,
             forallb (fun x => negb (x =? 123)%N) (Moment.zeroFill n width) = true).
  { intros n width. apply forallb_forall. intros x Hx.
    pose proof (zeroFill_digits n width) as Hd.
    rewrite Forall_forall in Hd. specialize (Hd x Hx).
    unfold Moment.is_digit in Hd. apply andb_prop in Hd as [_ Hd].
    apply N.leb_le in Hd. apply negb_true_iff, N.eqb_neq. lia. }
  unfold encoded_date. now rewrite !forallb_app, !Hz.
Qed.

Lemma encoded_date_no_dollar c :
  forallb (fun x => negb (x =? 36)%N) (encoded_date c) = true.
Proof.
  assert (Hz : forall n width,
             forallb (fun x => negb (x =? 36)%N) (Moment.zeroFill n width) = true).
  { intros n width. apply forallb_forall. intros x Hx.
    pose proof (zeroFill_digits n width) as Hd.
    rewrite Forall_forall in Hd. specialize (Hd x Hx).
    unfold Moment.is_digit in Hd. apply andb_prop in Hd as [Hd _].
    apply N.leb_le in Hd. apply negb_true_iff, N.eqb_neq. lia. }
  unfold encoded_date. now rewrite !forallb_app, !Hz.
Qed.

Lemma search_url_of_dates (c c' : Moment.calendar) :
  developmentApplicationSearchUrl (encoded_date c) (encoded_date c') =
  search_url_before ++ encoded_date c ++ search_url_between
  ++ encoded_date c' ++ search_url_after.
Proof.
  apply developmentApplicationSearchUrl_filled;
    [apply encoded_date_no_brace | apply encoded_date_no_dollar ..].
Qed.

(** ** The run as a whole *)

Section Run.

Context {platform : Platform}.

Lemma request_data (url : jsstring) (jar : nat) (w : World) :
  data (snd (request url jar w)) = data w
  /\ (forall e, fst (request url jar w) = Rejected e -> exists reason, e = RequestError reason).
Proof.
  unfold request. cbn [emit site jars data ticks events].
  destruct (http_get (site w) url (nth jar (jars w) [])) as [site' [e|[body cs]]];
    cbn; split; trivial; intros e' He'; [|discriminate].
  exists e. congruence.
Qed.

(** The three ways [main] can go up to the loop. *)
Lemma main_run (w : World) :
  (exists e w',
      main w = (Rejected (RequestError e), w')
      /\ events w' = events w ++
           [RequestSent DevelopmentApplicationMainUrl (length (jars w)) [];
            RequestFailed DevelopmentApplicationMainUrl (length (jars w))]
      /\ data w' = create_table_if_not_exists (data w))
  \/ exists set_cookie aMonthAgo,
       Moment.subtract_1_months (Moment.valid (clock (ticks w))) = Moment.valid aMonthAgo
       /\ ((exists e w',
               main w = (Rejected (RequestError e), w')
               /\ events w' = events w ++
                    [RequestSent DevelopmentApplicationMainUrl (length (jars w)) [];
                     ResponseReceived DevelopmentApplicationMainUrl (length (jars w))
                                      set_cookie;
                     RequestSent (developmentApplicationSearchUrl
                                    (encoded_date aMonthAgo)
                                    (encoded_date (clock (S (ticks w)))))
                                 (length (jars w)) (store_cookies [] set_cookie);
                     RequestFailed (developmentApplicationSearchUrl
                                      (encoded_date aMonthAgo)
                                      (encoded_date (clock (S (ticks w)))))
                                   (length (jars w))]
               /\ data w' = create_table_if_not_exists (data w))
           \/ (exists body set_cookie' w4,
                  main w = parse_search_results (load body) w4
                  /\ events w4 = events w ++
                       [RequestSent DevelopmentApplicationMainUrl (length (jars w)) [];
                        ResponseReceived DevelopmentApplicationMainUrl (length (jars w))
                                         set_cookie;
                        RequestSent (developmentApplicationSearchUrl
                                       (encoded_date aMonthAgo)
                                       (encoded_date (clock (S (ticks w)))))
                                    (length (jars w)) (store_cookies [] set_cookie);
                        ResponseReceived (developmentApplicationSearchUrl
                                            (encoded_date aMonthAgo)
                                            (encoded_date (clock (S (ticks w)))))
                                         (length (jars w)) set_cookie']
                  /\ data w4 = create_table_if_not_exists (data w)
                  /\ ticks w4 = S (S (ticks w)))).
Proof.
  rewrite main_steps.
  set (w1 := Build_World (jars w ++ [[]]) _ _ _ _).
  destruct (nth_set_nth_last (jars w) [] (store_cookies [] []) []) as [_ Hnth].
  pose proof (request_data DevelopmentApplicationMainUrl (length (jars w)) w1) as [Hd1 _].
  destruct (request_run DevelopmentApplicationMainUrl (length (jars w)) w1)
    as [(e & w2 & Hrun & Hev)|(body & cs & w2 & Hrun & Hev & Hjars & Hticks)];
    rewrite Hrun in *; cbn [jars events data ticks snd w1] in Hev, Hd1;
    rewrite Hnth in Hev.
  - left. exists e, w2. auto.
  - right. cbn [jars w1] in Hjars. rewrite Hnth in Hjars.
    destruct (nth_set_nth_last (jars w) [] (store_cookies [] cs) []) as [Hset _].
    rewrite Hset in Hjars. clear Hset Hnth.
    cbn [ticks w1] in Hticks. rewrite Hticks.
    exists cs.
    destruct (Moment.subtract_1_months (Moment.valid (clock (ticks w)))) as [|aMonthAgo] eqn:Hsub;
      [discriminate|].
    exists aMonthAgo. split; [reflexivity|].
    rewrite !encodeURIComponent_date.
    destruct (nth_set_nth_last (jars w) (store_cookies [] cs) [] []) as [_ Hnth3].
    set (url := developmentApplicationSearchUrl _ _).
    pose proof (request_data url (length (jars w)) (tick (tick w2))) as [Hd4 _].
    destruct (request_run url (length (jars w)) (tick (tick w2)))
      as [(e & w4 & Hrun4 & Hev4)|(body' & cs' & w4 & Hrun4 & Hev4 & _ & Hticks4)];
      rewrite Hrun4 in *; cbn [jars events data ticks tick snd] in Hev4, Hd4;
      rewrite Hjars, Hnth3, Hev, <- app_assoc in Hev4; rewrite Hd1 in Hd4.
    + left. exists e, w4. auto.
    + right. exists body', cs', w4. cbn [ticks tick] in Hticks4.
      rewrite Hticks in Hticks4. auto.
Qed.

(** X11.  Whenever the main page answers, the search is requested for the
    month up to today: the address is the search address with the date one
    month before the first reading of the clock as dateFrom and the date of
    the second reading as dateTo, both written DD%2FMM%2FYYYY. *)
Theorem search_is_requested_for_the_last_month (w : World) :
  exists new,
    events (snd (main w)) = events w ++ new
    /\ (requests new =
        [RequestSent DevelopmentApplicationMainUrl (length (jars w)) [];
         RequestFailed DevelopmentApplicationMainUrl (length (jars w))]
        \/ exists aMonthAgo set_cookie outcome_of_search,
             Moment.subtract_1_months (Moment.valid (clock (ticks w)))
             = Moment.valid aMonthAgo
             /\ requests new =
                [RequestSent DevelopmentApplicationMainUrl (length (jars w)) [];
                 ResponseReceived DevelopmentApplicationMainUrl (length (jars w))
                                  set_cookie;
                 RequestSent (search_url_before ++ encoded_date aMonthAgo
                              ++ search_url_between
                              ++ encoded_date (clock (S (ticks w)))
                              ++ search_url_after)
                             (length (jars w)) (store_cookies [] set_cookie);
                 outcome_of_search]).
Proof.
  destruct (main_run w)
    as [(e & w' & Hrun & Hev & _)
       |(cs & aMonthAgo & Hsub &
         [(e & w' & Hrun & Hev & _)|(body & cs' & w4 & Hrun & Hev & _ & _)])].
  - rewrite Hrun. eexists. split; [exact Hev|]. left. reflexivity.
  - rewrite Hrun. eexists. split; [exact Hev|]. right.
    exists aMonthAgo, cs. eexists. split; [exact Hsub|].
    rewrite (search_url_of_dates aMonthAgo (clock (S (ticks w)))). reflexivity.
  - rewrite Hrun.
    destruct (for_each_parse_header_rows
                (Cheerio.select (load body) h4_non_table_headers) w4)
      as (processed & skipped & new & o & _ & H2 & H3 & _).
    unfold parse_search_results. rewrite H2, Hev, <- app_assoc.
    eexists. split; [reflexivity|]. right.
    exists aMonthAgo, cs. eexists. split; [exact Hsub|].
    rewrite requests_app.
    assert (Hreq : requests new = []).
    { subst new. generalize (rows_at (ticks w4) (filter qualifies processed)).
      intros rows. induction rows; [reflexivity | assumption]. }
    rewrite Hreq, (search_url_of_dates aMonthAgo (clock (S (ticks w)))). reflexivity.
Qed.

(** X12.  How a run ends and what it leaves in the database.  The table is
    created first, whatever follows.  A run rejected by a request has
    handed no row to [insertRow] and leaves the database as it was after
    the table was created.  Otherwise the database is the one reached by
    inserting the rows handed over, in their order, into that database;
    the run is rejected with the error of sqlite exactly when an insert
    was, and that row is the last one handed over.  No run ends with a
    URIError. *)
Theorem run_outcome_and_database (w : World) :
  exists new,
    events (snd (main w)) = events w ++ new
    /\ match fst (main w) with
       | Resolved _ =>
         insert_rows (create_table_if_not_exists (data w)) (inserted new)
         = (data (snd (main w)), None)
       | Rejected (RequestError _) =>
         inserted new = []
         /\ data (snd (main w)) = create_table_if_not_exists (data w)
       | Rejected (SqliteError e) =>
         insert_rows (create_table_if_not_exists (data w)) (inserted new)
         = (data (snd (main w)), Some e)
       | Rejected URIError => False
       end.
Proof.
  destruct (main_run w)
    as [(e & w' & Hrun & Hev & Hd)
       |(cs & aMonthAgo & Hsub &
         [(e & w' & Hrun & Hev & Hd)|(body & cs' & w4 & Hrun & Hev & Hd & _)])].
  - rewrite Hrun. eexists. split; [exact Hev|]. cbn. auto.
  - rewrite Hrun. eexists. split; [exact Hev|]. cbn. auto.
  - rewrite Hrun.
    destruct (for_each_parse_header_rows
                (Cheerio.select (load body) h4_non_table_headers) w4)
      as (processed & skipped & new & o & _ & H2 & _ & H4 & H5 & _).
    unfold parse_search_results. rewrite H2, Hev, <- app_assoc.
    eexists. split; [reflexivity|].
    rewrite H5. rewrite inserted_app. cbn [inserted app].
    rewrite <- Hd. destruct o; exact H4.
Qed.

End Run.

(** X13.  In every run every call of [insertRow] comes behind all the
    requests: the events of a run are its requests followed by its rows.
    (The table of line 29 is created before the first request; it is no
    event here.) *)
Theorem requests_come_before_rows {platform : Platform} (w : World) :
  exists new,
    events (snd (main w)) = events w ++ new
    /\ new = requests new ++ map InsertRow (inserted new).
Proof.
  destruct (main_run w)
    as [(e & w' & Hrun & Hev & _)
       |(cs & aMonthAgo & Hsub &
         [(e & w' & Hrun & Hev & _)|(body & cs' & w4 & Hrun & Hev & _ & _)])].
  - rewrite Hrun. eexists. split; [exact Hev|]. reflexivity.
  - rewrite Hrun. eexists. split; [exact Hev|]. reflexivity.
  - rewrite Hrun.
    destruct (for_each_parse_header_rows
                (Cheerio.select (load body) h4_non_table_headers) w4)
      as (processed & skipped & new & o & _ & H2 & H3 & _).
    unfold parse_search_results. rewrite H2, Hev, <- app_assoc.
    eexists. split; [reflexivity|].
    rewrite requests_app, inserted_app. subst new.
    generalize (rows_at (ticks w4) (filter qualifies processed)). intros rows.
    rewrite inserted_map_InsertRow.
    assert (Hreq : requests (map InsertRow rows) = [])
      by (induction rows; [reflexivity | assumption]).
    rewrite Hreq. reflexivity.
Qed.

(** ** The date received *)

Lemma is_digit_in_digits c : Moment.is_digit c = true -> In c digits.
Proof.
  unfold Moment.is_digit. rewrite andb_true_iff, !N.leb_le. intros [H1 H2].
  unfold digits. cbn [In]. lia.
Qed.

Lemma zeroFill_toInt_1 c :
  Moment.is_digit c = true -> Moment.zeroFill (Moment.toInt [c]) 2 = [48%N; c].
Proof.
  intros H. apply is_digit_in_digits in H. revert c H. apply Forall_forall.
  repeat constructor.
Qed.

Lemma zeroFill_toInt_2 a b :
  Moment.is_digit a = true -> Moment.is_digit b = true ->
  Moment.zeroFill (Moment.toInt [a; b]) 2 = [a; b].
Proof.
  intros Ha Hb. apply is_digit_in_digits in Ha, Hb.
  assert (H : forallb (fun a => forallb (fun b =>
                JsString.eqb (Moment.zeroFill (Moment.toInt [a; b]) 2) [a; b])
              digits) digits = true) by (vm_compute; reflexivity).
  rewrite forallb_forall in H. specialize (H a Ha).
  rewrite forallb_forall in H. specialize (H b Hb).
  now apply eqb_eq.
Qed.

Lemma string_of_revapp (x y : Decimal.uint) :
  lit (NilEmpty.string_of_uint (Decimal.revapp x y)) =
  lit (NilEmpty.string_of_uint (Decimal.revapp x Decimal.Nil))
  ++ lit (NilEmpty.string_of_uint y).
Proof.
  revert y. induction x as [|x IH|x IH|x IH|x IH|x IH|x IH|x IH|x IH|x IH|x IH];
    intros y; [reflexivity | ..]; cbn [Decimal.revapp];
    rewrite (IH (_ y)), (IH (_ Decimal.Nil)), <- app_assoc; reflexivity.
Qed.

(** The decimal digits of [10 * q + r] are those of [q] followed by the
    digit [r]. *)
Lemma digits_of_tenfold q r :
  q <> 0 -> r < 10 ->
  lit (NilEmpty.string_of_uint (Nat.to_uint (10 * q + r))) =
  lit (NilEmpty.string_of_uint (Nat.to_uint q)) ++ [(48 + N.of_nat r)%N].
Proof.
  intros Hq Hr. rewrite !DecimalNat.Unsigned.to_uint_alt.
  replace (10 * q + r) with (r + 10 * q) by lia.
  do 10 (destruct r as [|r]; [
    cbn [Nat.add];
    rewrite ?DecimalNat.Unsigned.to_lu_succ,
            (DecimalNat.Unsigned.to_lu_tenfold q Hq);
    cbn [Decimal.Little.succ]; unfold Decimal.rev; cbn [Decimal.revapp];
    rewrite string_of_revapp; reflexivity |]).
  lia.
Qed.

Lemma digit_value c :
  In c digits -> N.to_nat c - 48 < 10 /\ (48 + N.of_nat (N.to_nat c - 48))%N = c.
Proof.
  revert c. apply Forall_forall. repeat constructor.
Qed.

Lemma zeroFill_toInt_4 a b c d :
  Moment.is_digit a = true -> Moment.is_digit b = true ->
  Moment.is_digit c = true -> Moment.is_digit d = true ->
  Moment.zeroFill (Moment.toInt [a; b; c; d]) 4 = [a; b; c; d].
Proof.
  intros Ha Hb Hc Hd. apply is_digit_in_digits in Ha, Hb, Hc, Hd.
  assert (H : forallb (fun a => forallb (fun b => forallb (fun c =>
                JsString.eqb (Moment.zeroFill (Moment.toInt [a; b; c]) 3) [a; b; c])
              digits) digits) digits = true) by (vm_compute; reflexivity).
  rewrite forallb_forall in H. specialize (H a Ha).
  rewrite forallb_forall in H. specialize (H b Hb).
  rewrite forallb_forall in H. specialize (H c Hc).
  apply eqb_eq in H.
  change (Moment.toInt [a; b; c; d])
    with (10 * Moment.toInt [a; b; c] + (N.to_nat d - 48)).
  destruct (Nat.eq_dec (Moment.toInt [a; b; c]) 0) as [Hq|Hq].
  - rewrite Hq in *. injection H as <- <- <-.
    revert d Hd. apply Forall_forall. repeat constructor.
  - destruct (@digit_value d Hd) as [Hr Hval].
    unfold Moment.zeroFill in *.
    rewrite (@digits_of_tenfold _ _ Hq Hr), Hval, length_app. cbn [length].
    replace (4 - (length (lit (NilEmpty.string_of_uint
                                (Nat.to_uint (Moment.toInt [a; b; c])))) + 1))
      with (3 - length (lit (NilEmpty.string_of_uint
                               (Nat.to_uint (Moment.toInt [a; b; c]))))) by lia.
    rewrite app_assoc. exact (f_equal (fun x => x ++ [d]) H).
Qed.

Lemma number_token_day_1 c rest :
  Moment.is_digit c = true ->
  Moment.number_token 1 2 (c :: 47%N :: rest) = Some (Moment.toInt [c], 47%N :: rest).
Proof.
  intros Hc. unfold Moment.number_token. cbn [Moment.leading_digits].
  change (Moment.is_digit 47%N) with false. now rewrite Hc.
Qed.

Lemma number_token_two lo a b rest :
  lo <= 2 -> Moment.is_digit a = true -> Moment.is_digit b = true ->
  Moment.number_token lo 2 (a :: b :: rest) = Some (Moment.toInt [a; b], rest).
Proof.
  intros Hlo Ha Hb. unfold Moment.number_token. cbn [Moment.leading_digits].
  rewrite Ha, Hb. cbn [length skipn].
  apply Nat.leb_le in Hlo. now rewrite Hlo.
Qed.

Lemma number_token_four a b c d :
  Moment.is_digit a = true -> Moment.is_digit b = true ->
  Moment.is_digit c = true -> Moment.is_digit d = true ->
  Moment.number_token 4 4 [a; b; c; d] = Some (Moment.toInt [a; b; c; d], []).
Proof.
  intros Ha Hb Hc Hd. unfold Moment.number_token. cbn [Moment.leading_digits].
  now rewrite Ha, Hb, Hc, Hd.
Qed.

(** X14.  A "Date Lodged" value of the shape D/MM/YYYY or DD/MM/YYYY that
    names a day of the calendar is stored as the same day in the form
    YYYY-MM-DD: the digits of the year and the month as they were written,
    the day put to two digits. *)
Theorem date_lodged_is_stored_as_year_month_day
  (day : jsstring) (m1 m2 y1 y2 y3 y4 : char16)
  (Hday : length day = 1 \/ length day = 2)
  (Hdigits : forallb Moment.is_digit (day ++ [m1; m2; y1; y2; y3; y4]) = true)
  (Hexists : Moment.checkOverflow
               {| Moment.year := Moment.toInt [y1; y2; y3; y4];
                  Moment.month := Moment.toInt [m1; m2];
                  Moment.date := Moment.toInt day |} = true) :
  receivedDate_text
    (var_receivedDate
       (assign initial_variables (lit "Date Lodged")
               (day ++ [47%N; m1; m2; 47%N; y1; y2; y3; y4])))
  = [y1; y2; y3; y4; 45%N; m1; m2; 45%N] ++ two_digit_day day.
Proof.
  rewrite assign_date_lodged. cbn [var_receivedDate].
  rewrite forallb_app in Hdigits. apply andb_prop in Hdigits as [Hd Hrest].
  cbn [forallb] in Hrest.
  repeat (apply andb_prop in Hrest as [? Hrest]).
  assert (Hparse : Moment.parse_D_MM_YYYY_strict
                     (day ++ [47%N; m1; m2; 47%N; y1; y2; y3; y4])
                   = Moment.valid
                       {| Moment.year := Moment.toInt [y1; y2; y3; y4];
                          Moment.month := Moment.toInt [m1; m2];
                          Moment.date := Moment.toInt day |}).
  { unfold Moment.parse_D_MM_YYYY_strict.
    destruct day as [|c1 [|c2 [|c3 day]]]; cbn [length] in Hday;
      [lia | | | lia]; cbn [forallb] in Hd;
      repeat (apply andb_prop in Hd as [? Hd]); cbn [app].
    - rewrite number_token_day_1 by assumption.
      cbn [Moment.literal_token]. rewrite N.eqb_refl.
      rewrite number_token_two by (trivial; lia).
      cbn [Moment.literal_token]. rewrite N.eqb_refl.
      rewrite number_token_four by assumption. now rewrite Hexists.
    - rewrite number_token_two by (trivial; lia).
      cbn [Moment.literal_token]. rewrite N.eqb_refl.
      rewrite number_token_two by (trivial; lia).
      cbn [Moment.literal_token]. rewrite N.eqb_refl.
      rewrite number_token_four by assumption. now rewrite Hexists. }
  rewrite Hparse. unfold receivedDate_text. cbn [Moment.get_isValid Moment.ToBoolean].
  unfold Moment.format, Moment.YYYY_MM_DD.
  cbn [map concat Moment.format_token Moment.year Moment.month Moment.date].
  rewrite zeroFill_toInt_4, zeroFill_toInt_2 by assumption.
  destruct day as [|c1 [|c2 [|c3 day]]]; cbn [length] in Hday;
    [lia | | | lia]; cbn [forallb] in Hd;
    repeat (apply andb_prop in Hd as [? Hd]); cbn [two_digit_day].
  - now rewrite zeroFill_toInt_1.
  - now rewrite zeroFill_toInt_2.
Qed.

Lemma date_lodged_is_stored_as_year_month_day_witness :
  receivedDate_text
    (var_receivedDate (assign initial_variables (lit "Date Lodged") (lit "5/08/2018")))
  = lit "2018-08-05".
Proof.
  apply (@date_lodged_is_stored_as_year_month_day
           (lit "5") 48%N 56%N 50%N 48%N 49%N 56%N).
  - left; reflexivity.
  - vm_compute; reflexivity.
  - vm_compute; reflexivity.
Defined.

Lemma leading_digits_prefix hi s :
  s = Moment.leading_digits hi s ++ skipn (length (Moment.leading_digits hi s)) s
  /\ forallb Moment.is_digit (Moment.leading_digits hi s) = true
  /\ length (Moment.leading_digits hi s) <= hi.
Proof.
  revert s. induction hi as [|hi IH]; intros s; [repeat split; cbn; lia |].
  destruct s as [|c r]; [repeat split; cbn; lia|].
  cbn [Moment.leading_digits]. destruct (Moment.is_digit c) eqn:Hc.
  - destruct (IH r) as (H1 & H2 & H3). cbn [length skipn app forallb].
    rewrite Hc, H2. repeat split; [now rewrite <- H1 | lia].
  - repeat split; cbn; lia.
Qed.

Lemma number_token_inv lo hi s n rest :
  Moment.number_token lo hi s = Some (n, rest) ->
  exists ds, s = ds ++ rest /\ lo <= length ds /\ length ds <= hi
             /\ forallb Moment.is_digit ds = true /\ n = Moment.toInt ds.
Proof.
  unfold Moment.number_token.
  destruct (lo <=? length (Moment.leading_digits hi s)) eqn:Hlo; [|discriminate].
  intros H. injection H as Hn Hrest.
  destruct (leading_digits_prefix hi s) as (H1 & H2 & H3).
  exists (Moment.leading_digits hi s). apply Nat.leb_le in Hlo.
  rewrite <- Hrest. auto.
Qed.

Lemma literal_token_inv c s rest :
  Moment.literal_token c s = Some rest -> s = c :: rest.
Proof.
  destruct s as [|c' r]; [discriminate|]. cbn.
  destruct (c =? c')%N eqn:E; [|discriminate].
  apply N.eqb_eq in E. intros H. injection H as ->. now subst.
Qed.

(** X15.  A "Date Lodged" value gives a valid date only when the whole of
    it has the shape D/MM/YYYY: one or two digits, a slash, two digits, a
    slash and four digits, naming a day of the calendar.  Anything else - a
    month of one digit, a year of two, other separators, text before or
    behind - leaves the date received invalid. *)
Theorem valid_date_lodged_has_the_strict_shape
  (vars : variables) (value : jsstring) (c : Moment.calendar)
  (H : var_receivedDate (assign vars (lit "Date Lodged") value) = Moment.valid c) :
  exists day m1 m2 y1 y2 y3 y4,
    value = day ++ [47%N; m1; m2; 47%N; y1; y2; y3; y4]
    /\ (length day = 1 \/ length day = 2)
    /\ forallb Moment.is_digit (day ++ [m1; m2; y1; y2; y3; y4]) = true
    /\ c = {| Moment.year := Moment.toInt [y1; y2; y3; y4];
              Moment.month := Moment.toInt [m1; m2];
              Moment.date := Moment.toInt day |}
    /\ Moment.checkOverflow c = true.
Proof.
  rewrite assign_date_lodged in H. cbn [var_receivedDate] in H.
  unfold Moment.parse_D_MM_YYYY_strict in H.
  destruct (Moment.number_token 1 2 value) as [[d s1]|] eqn:E1; [|discriminate].
  destruct (Moment.literal_token 47%N s1) as [s2|] eqn:E2; [|discriminate].
  destruct (Moment.number_token 2 2 s2) as [[m s3]|] eqn:E3; [|discriminate].
  destruct (Moment.literal_token 47%N s3) as [s4|] eqn:E4; [|discriminate].
  destruct (Moment.number_token 4 4 s4) as [[y [|? ?]]|] eqn:E5; try discriminate.
  destruct (Moment.checkOverflow _) eqn:E6; [|discriminate].
  injection H as <-.
  apply number_token_inv in E1 as (day & -> & Hd1 & Hd2 & Hdd & ->).
  apply literal_token_inv in E2 as ->.
  apply number_token_inv in E3 as (mm & -> & Hm1 & Hm2 & Hmd & ->).
  apply literal_token_inv in E4 as ->.
  apply number_token_inv in E5 as (yyyy & -> & Hy1 & Hy2 & Hyd & ->).
  destruct mm as [|m1 [|m2 [|? ?]]]; cbn [length] in Hm1, Hm2; try lia.
  destruct yyyy as [|y1 [|y2 [|y3 [|y4 [|? ?]]]]]; cbn [length] in Hy1, Hy2; try lia.
  exists day, m1, m2, y1, y2, y3, y4.
  split; [reflexivity|].
  split; [clear - Hd1 Hd2; destruct day as [|? [|? [|? ?]]]; cbn [length] in *; lia|].
  split; [|split; [reflexivity | exact E6]].
  rewrite forallb_app. apply andb_true_intro. split; [exact Hdd|].
  cbn [forallb] in *.
  apply andb_prop in Hmd as [-> Hmd]. apply andb_prop in Hmd as [-> _].
  apply andb_prop in Hyd as [-> Hyd]. apply andb_prop in Hyd as [-> Hyd].
  apply andb_prop in Hyd as [-> Hyd]. apply andb_prop in Hyd as [-> _].
  reflexivity.
Qed.

Lemma valid_date_lodged_has_the_strict_shape_witness :
  exists day m1 m2 y1 y2 y3 y4,
    lit "05/08/2018" = day ++ [47%N; m1; m2; 47%N; y1; y2; y3; y4]
    /\ (length day = 1 \/ length day = 2)
    /\ forallb Moment.is_digit (day ++ [m1; m2; y1; y2; y3; y4]) = true
    /\ {| Moment.year := 2018; Moment.month := 8; Moment.date := 5 |}
       = {| Moment.year := Moment.toInt [y1; y2; y3; y4];
            Moment.month := Moment.toInt [m1; m2];
            Moment.date := Moment.toInt day |}
    /\ Moment.checkOverflow {| Moment.year := 2018; Moment.month := 8; Moment.date := 5 |}
       = true.
Proof.
  apply (@valid_date_lodged_has_the_strict_shape initial_variables).
  vm_compute; reflexivity.
Defined.

Example demo_run_requests :
  requests (events (snd (Demo.run Pages.smith_st))) =
  [RequestSent DevelopmentApplicationMainUrl 0 [];
   ResponseReceived DevelopmentApplicationMainUrl 0 [Demo.session];
   RequestSent (lit "https://ecouncil.npsp.sa.gov.au/eservice/daEnquiry.do?number=&lodgeRangeType=on&dateFrom=28%2F02%2F2023&dateTo=31%2F03%2F2023&detDateFromString=&detDateToString=&streetName=&suburb=0&unitNum=&houseNum=0%0D%0A%09%09%09%09%09%09&planNumber=&strataPlan=&lotNumber=&propertyName=&searchMode=A&submitButton=Search")
               0 [Demo.session];
   ResponseReceived (lit "https://ecouncil.npsp.sa.gov.au/eservice/daEnquiry.do?number=&lodgeRangeType=on&dateFrom=28%2F02%2F2023&dateTo=31%2F03%2F2023&detDateFromString=&detDateToString=&streetName=&suburb=0&unitNum=&houseNum=0%0D%0A%09%09%09%09%09%09&planNumber=&strataPlan=&lotNumber=&propertyName=&searchMode=A&submitButton=Search")
               0 []].
Proof. vm_compute. reflexivity. Qed.

Example demo_run_rows :
  map fields_of (inserted (events (snd (Demo.run Pages.smith_st)))) =
  [(lit "123/2023", lit "12 Smith St", lit "Carport", lit "2023-01-03")].
Proof. vm_compute. reflexivity. Qed.

Example replace_ex :
  replace re_ws_ws_plus [SPACE] (lit "12  Smith   St") = lit "12 Smith St".
Proof. vm_compute. reflexivity. Qed.

Example parse_ex1 :
  Moment.parse_D_MM_YYYY_strict (lit "5/08/2023")
  = Moment.valid {| Moment.year := 2023; Moment.month := 8; Moment.date := 5 |}.
Proof. vm_compute. reflexivity. Qed.

Example format_ex1 :
  Moment.format (Moment.parse_D_MM_YYYY_strict (lit "05/08/2023")) Moment.YYYY_MM_DD
  = lit "2023-08-05".
Proof. vm_compute. reflexivity. Qed.

Example format_ex2 :
  Moment.format (Moment.parse_D_MM_YYYY_strict (lit "3/1/2023")) Moment.YYYY_MM_DD
  = lit "Invalid date".
Proof. vm_compute. reflexivity. Qed.
